(** * BYOM coordinate transforms: a shallow embedding of [src/lib/transforms.js]

    The JavaScript module fits a planar transform from reference points
    (similarity from two points, affine from three or more) and evaluates
    it forward (image to geo) and backward (geo to image).

    The code is embedded once, over an abstract [Number] type that carries
    the arithmetic the source uses, and is then read at two instances:

    - [RealNumber]: exact real arithmetic.  Statements that the
      specification makes "within numerical tolerance" are proved here as
      equalities between real numbers.
    - [Binary64]: IEEE 754 double precision, the JavaScript Number type
      itself.  The code runs here on concrete inputs, and statements
      about Infinity and NaN are proved here.

    A thrown [Error] is a value [Err e] of the [result] type. *)

From Stdlib Require Import Reals Lra Lia ZArith List String Bool Floats.
Import ListNotations.

Set Implicit Arguments.

(** ** Numbers *)

(** The arithmetic of a JavaScript Number that the module uses. *)
Class Number (N : Type) : Type := {
  lit : Z -> N;                (* an integer literal, or [length] as a Number *)
  tol : N;                     (* the literal [1e-10] *)
  num_add : N -> N -> N;
  num_sub : N -> N -> N;
  num_mul : N -> N -> N;
  num_div : N -> N -> N;
  num_neg : N -> N;
  num_ltb : N -> N -> bool;    (* [x < y] *)
  Math_abs : N -> N;
  Math_sqrt : N -> N
}.

(** The transcendental functions of the [Math] object, which ECMAScript
    leaves implementation-approximated. *)
Class Trig (N : Type) : Type := {
  Math_cos : N -> N;
  Math_sin : N -> N;
  Math_atan2 : N -> N -> N     (* [Math.atan2(y, x)] *)
}.

Declare Scope js_scope.
Delimit Scope js_scope with js.
Infix "+" := num_add : js_scope.
Infix "-" := num_sub : js_scope.
Infix "*" := num_mul : js_scope.
Infix "/" := num_div : js_scope.
Notation "- x" := (num_neg x) : js_scope.
Infix "<?" := num_ltb : js_scope.

(** ** Data *)

(** A reference point [{imageX, imageY, lon, lat}]. *)
Module Ref.
Record t (N : Type) : Type := mk { imageX : N; imageY : N; lon : N; lat : N }.
Arguments mk {N} _ _ _ _.
End Ref.

(** A geographic result [{lon, lat}]. *)
Module Geo.
Record t (N : Type) : Type := mk { lon : N; lat : N }.
Arguments mk {N} _ _.
End Geo.

(** An image result [{imageX, imageY}]. *)
Module Img.
Record t (N : Type) : Type := mk { imageX : N; imageY : N }.
Arguments mk {N} _ _.
End Img.

(** Similarity parameters [{scale, rotation, tx, ty}]. *)
Module Similarity.
Record t (N : Type) : Type := mk { scale : N; rotation : N; tx : N; ty : N }.
Arguments mk {N} _ _ _ _.
End Similarity.

(** Affine parameters [{a, b, c, d, e, f}]:
    [lon = a*x + b*y + c], [lat = d*x + e*y + f]. *)
Module Affine.
Record t (N : Type) : Type := mk { a : N; b : N; c : N; d : N; e : N; f : N }.
Arguments mk {N} _ _ _ _ _ _.
End Affine.

(** The [transform] object handed to the evaluators. *)
Inductive Transform (N : Type) : Type :=
| SimilarityT (t : Similarity.t N)
| AffineT (t : Affine.t N).
Arguments SimilarityT {N} t.
Arguments AffineT {N} t.

(** What [calculateTransform] returns: [{transform, type}]. *)
Record Fit (N : Type) : Type := mkFit { transform : Transform N; type : string }.
Arguments mkFit {N} _ _.

(** ** Errors *)

Inductive Error : Type :=
| InsufficientPoints (needed : nat)
| CollinearPoints
| SingularTransform
| UnknownTransformType
| ForeignShape.

(** The message of the [Error] the source throws.  [ForeignShape] has
    none: it marks a [transform] whose fields do not belong to the [type]
    string passed with it.  JavaScript would read [undefined] fields
    there; every caller passes the pair that [calculateTransform]
    returned, so the case does not arise in the program. *)
Definition message (e : Error) : string :=
  match e with
  | InsufficientPoints 2 => "Need at least 2 reference points"
  | InsufficientPoints _ => "Need at least 3 reference points for affine transform"
  | CollinearPoints => "Points are collinear, cannot compute affine transform"
  | SingularTransform => "Transform is singular"
  | UnknownTransformType => "Unknown transform type"
  | ForeignShape => ""
  end.

Inductive result (A : Type) : Type :=
| Ok (x : A)
| Err (e : Error).
Arguments Ok {A} x.
Arguments Err {A} e.

(** ** The module [src/lib/transforms.js] *)

(** The eleven running sums of the least-squares loop. *)
Record Sums (N : Type) : Type := mkSums {
  sum_x : N; sum_y : N; sum_x2 : N; sum_y2 : N; sum_xy : N;
  sum_lon : N; sum_lat : N; sum_x_lon : N; sum_y_lon : N;
  sum_x_lat : N; sum_y_lat : N
}.
Arguments mkSums {N} _ _ _ _ _ _ _ _ _ _ _.

Section Transforms.
Context {N : Type} {num : Number N} {trig : Trig N}.
Local Open Scope js_scope.

(** [referencePoints[i]].  Both fitters check the length before they
    index, so the default is never read. *)
Definition nth_point (referencePoints : list (Ref.t N)) (i : nat) : Ref.t N :=
  nth i referencePoints (Ref.mk (lit 0) (lit 0) (lit 0) (lit 0)).

Definition computeSimilarityTransform (referencePoints : list (Ref.t N))
  : result (Similarity.t N) :=
  if (List.length referencePoints <? 2)%nat then Err (InsufficientPoints 2) else
  let p1 := nth_point referencePoints 0 in
  let p2 := nth_point referencePoints 1 in
  (* Image space vector *)
  let dx_img := Ref.imageX p2 - Ref.imageX p1 in
  let dy_img := Ref.imageY p2 - Ref.imageY p1 in
  (* Geographic space vector (lon, lat) *)
  let dx_geo := Ref.lon p2 - Ref.lon p1 in
  let dy_geo := Ref.lat p2 - Ref.lat p1 in
  (* Calculate scale *)
  let dist_img := Math_sqrt (dx_img * dx_img + dy_img * dy_img) in
  let dist_geo := Math_sqrt (dx_geo * dx_geo + dy_geo * dy_geo) in
  let scale := dist_geo / dist_img in
  (* Calculate rotation *)
  let angle_img := Math_atan2 dy_img dx_img in
  let angle_geo := Math_atan2 dy_geo dx_geo in
  let rotation := angle_geo - angle_img in
  (* Calculate translation using first point *)
  let cos_r := Math_cos rotation in
  let sin_r := Math_sin rotation in
  let tx := Ref.lon p1 - (scale * cos_r * Ref.imageX p1 - scale * sin_r * Ref.imageY p1) in
  let ty := Ref.lat p1 - (scale * sin_r * Ref.imageX p1 + scale * cos_r * Ref.imageY p1) in
  Ok (Similarity.mk scale rotation tx ty).

(** One turn of [for (const p of referencePoints)]. *)
Definition accumulate (s : Sums N) (p : Ref.t N) : Sums N :=
  mkSums (sum_x s + Ref.imageX p)
         (sum_y s + Ref.imageY p)
         (sum_x2 s + Ref.imageX p * Ref.imageX p)
         (sum_y2 s + Ref.imageY p * Ref.imageY p)
         (sum_xy s + Ref.imageX p * Ref.imageY p)
         (sum_lon s + Ref.lon p)
         (sum_lat s + Ref.lat p)
         (sum_x_lon s + Ref.imageX p * Ref.lon p)
         (sum_y_lon s + Ref.imageY p * Ref.lon p)
         (sum_x_lat s + Ref.imageX p * Ref.lat p)
         (sum_y_lat s + Ref.imageY p * Ref.lat p).

Definition zero_sums : Sums N :=
  mkSums (lit 0) (lit 0) (lit 0) (lit 0) (lit 0) (lit 0)
         (lit 0) (lit 0) (lit 0) (lit 0) (lit 0).

Definition affine_sums (referencePoints : list (Ref.t N)) : Sums N :=
  fold_left accumulate referencePoints zero_sums.

(** [det] of [computeAffineTransform]: the determinant of the normal
    equations, from the point count [n] and the sums. *)
Definition normal_det (n : N) (s : Sums N) : N :=
  n * (sum_x2 s * sum_y2 s - sum_xy s * sum_xy s)
  - sum_x s * (sum_x s * sum_y2 s - sum_y s * sum_xy s)
  + sum_y s * (sum_x s * sum_xy s - sum_y s * sum_x2 s).

Definition point_count (referencePoints : list (Ref.t N)) : N :=
  lit (Z.of_nat (List.length referencePoints)).

Definition computeAffineTransform (referencePoints : list (Ref.t N))
  : result (Affine.t N) :=
  if (List.length referencePoints <? 3)%nat then Err (InsufficientPoints 3) else
  let n := point_count referencePoints in
  let s := affine_sums referencePoints in
  let sum_x := sum_x s in let sum_y := sum_y s in
  let sum_x2 := sum_x2 s in let sum_y2 := sum_y2 s in
  let sum_xy := sum_xy s in
  let sum_lon := sum_lon s in let sum_lat := sum_lat s in
  let sum_x_lon := sum_x_lon s in let sum_y_lon := sum_y_lon s in
  let sum_x_lat := sum_x_lat s in let sum_y_lat := sum_y_lat s in
  (* Solve for lon coefficients (a, b, c) *)
  let det := normal_det n s in
  if Math_abs det <? tol then Err CollinearPoints else
  let a := (n * (sum_x_lon * sum_y2 - sum_y_lon * sum_xy)
            - sum_x * (sum_lon * sum_y2 - sum_y * sum_y_lon)
            + sum_y * (sum_lon * sum_xy - sum_y * sum_x_lon)) / det in
  let b := (n * (sum_x2 * sum_y_lon - sum_xy * sum_x_lon)
            - sum_x * (sum_x * sum_y_lon - sum_y * sum_x_lon)
            + sum_y * (sum_x * sum_lon - sum_x2 * sum_lon)) / det in
  let c := (n * (sum_x2 * sum_y2 - sum_xy * sum_xy)
            - sum_x * (sum_x * sum_y2 - sum_y * sum_xy)
            + sum_y * (sum_x * sum_xy - sum_y * sum_x2)) / det in
  let c_val := (sum_lon - a * sum_x - b * sum_y) / n in
  (* Solve for lat coefficients (d, e, f) *)
  let d := (n * (sum_x_lat * sum_y2 - sum_y_lat * sum_xy)
            - sum_x * (sum_lat * sum_y2 - sum_y * sum_y_lat)
            + sum_y * (sum_lat * sum_xy - sum_y * sum_x_lat)) / det in
  let e := (n * (sum_x2 * sum_y_lat - sum_xy * sum_x_lat)
            - sum_x * (sum_x * sum_y_lat - sum_y * sum_x_lat)
            + sum_y * (sum_x * sum_lat - sum_x2 * sum_lat)) / det in
  let f_val := (sum_lat - d * sum_x - e * sum_y) / n in
  Ok (Affine.mk a b c_val d e f_val).

Definition imageToGeo (imageX imageY : N) (transform : Transform N) (type : string)
  : result (Geo.t N) :=
  if String.eqb type "similarity" then
    match transform with
    | SimilarityT (Similarity.mk scale rotation tx ty) =>
        let cos_r := Math_cos rotation in
        let sin_r := Math_sin rotation in
        let lon := scale * cos_r * imageX - scale * sin_r * imageY + tx in
        let lat := scale * sin_r * imageX + scale * cos_r * imageY + ty in
        Ok (Geo.mk lon lat)
    | AffineT _ => Err ForeignShape
    end
  else if String.eqb type "affine" then
    match transform with
    | AffineT (Affine.mk a b c d e f) =>
        let lon := a * imageX + b * imageY + c in
        let lat := d * imageX + e * imageY + f in
        Ok (Geo.mk lon lat)
    | SimilarityT _ => Err ForeignShape
    end
  else Err UnknownTransformType.

Definition geoToImage (lon lat : N) (transform : Transform N) (type : string)
  : result (Img.t N) :=
  if String.eqb type "similarity" then
    match transform with
    | SimilarityT (Similarity.mk scale rotation tx ty) =>
        let cos_r := Math_cos rotation in
        let sin_r := Math_sin rotation in
        (* Inverse transformation *)
        let lon_shifted := lon - tx in
        let lat_shifted := lat - ty in
        let imageX := (cos_r * lon_shifted + sin_r * lat_shifted) / scale in
        let imageY := (- sin_r * lon_shifted + cos_r * lat_shifted) / scale in
        Ok (Img.mk imageX imageY)
    | AffineT _ => Err ForeignShape
    end
  else if String.eqb type "affine" then
    match transform with
    | AffineT (Affine.mk a b c d e f) =>
        (* Inverse affine transformation *)
        let det := a * e - b * d in
        if Math_abs det <? tol then Err SingularTransform else
        let lon_shifted := lon - c in
        let lat_shifted := lat - f in
        let imageX := (e * lon_shifted - b * lat_shifted) / det in
        let imageY := (- d * lon_shifted + a * lat_shifted) / det in
        Ok (Img.mk imageX imageY)
    | SimilarityT _ => Err ForeignShape
    end
  else Err UnknownTransformType.

(** [referencePoints] is [None] for a missing ([null] or [undefined])
    argument; the returned [None] is JavaScript's [null]. *)
Definition calculateTransform (referencePoints : option (list (Ref.t N)))
  : result (option (Fit N)) :=
  match referencePoints with
  | None => Ok None
  | Some referencePoints =>
      if (List.length referencePoints <? 2)%nat then Ok None
      else if (List.length referencePoints =? 2)%nat then
        match computeSimilarityTransform referencePoints with
        | Ok t => Ok (Some (mkFit (SimilarityT t) "similarity"))
        | Err e => Err e
        end
      else
        match computeAffineTransform referencePoints with
        | Ok t => Ok (Some (mkFit (AffineT t) "affine"))
        | Err e => Err e
        end
  end.

End Transforms.

(** ** Exact real arithmetic *)

(** [Math.atan2(y, x)] on real numbers: the angle of the vector [(x, y)]
    in [(-PI, PI]], and [0] for the zero vector. *)
Definition Ratan2 (y x : R) : R :=
  (if Rlt_dec 0 x then atan (y / x)
   else if Rlt_dec x 0 then
     if Rle_dec 0 y then atan (y / x) + PI else atan (y / x) - PI
   else if Rlt_dec 0 y then PI / 2
   else if Rlt_dec y 0 then - (PI / 2)
   else 0)%R.

Definition Rltb (x y : R) : bool := if Rlt_dec x y then true else false.

(** The code over exact arithmetic: no operation rounds, and there is
    neither [Infinity] nor [NaN].  The quotient by [0] is the real [0]
    here, where a double gives [Infinity] or [NaN]; the statements over
    [R] therefore keep the divisor nonzero or hold whatever the quotient
    is, and what the code does on a zero divisor is stated over
    [Binary64]. *)
#[export] Instance RealNumber : Number R := {|
  lit := IZR;
  tol := (1 / 10000000000)%R;
  num_add := Rplus;
  num_sub := Rminus;
  num_mul := Rmult;
  num_div := Rdiv;
  num_neg := Ropp;
  num_ltb := Rltb;
  Math_abs := Rabs;
  Math_sqrt := R_sqrt.sqrt
|}.

#[export] Instance RealTrig : Trig R := {|
  Math_cos := cos;
  Math_sin := sin;
  Math_atan2 := Ratan2
|}.

(** ** IEEE 754 binary64 arithmetic *)

(** An integer as a double; exact for the small integers used below. *)
Definition float_of_Z (z : Z) : float :=
  match z with
  | Z0 => 0%float
  | Zpos _ => PrimFloat.of_uint63 (Uint63.of_Z z)
  | Zneg p => PrimFloat.opp (PrimFloat.of_uint63 (Uint63.of_Z (Zpos p)))
  end.

#[export] Instance Binary64 : Number float := {|
  lit := float_of_Z;
  tol := 0x1.b7cdfd9d7bdbbp-34%float;   (* the double that [1e-10] denotes *)
  num_add := PrimFloat.add;
  num_sub := PrimFloat.sub;
  num_mul := PrimFloat.mul;
  num_div := PrimFloat.div;
  num_neg := PrimFloat.opp;
  num_ltb := PrimFloat.ltb;
  Math_abs := PrimFloat.abs;
  Math_sqrt := PrimFloat.sqrt
|}.

(** ** Inputs of the specification's scenarios *)

Section Scenarios.
Context {N : Type} {num : Number N}.

Definition point (imageX imageY lon lat : Z) : Ref.t N :=
  Ref.mk (lit imageX) (lit imageY) (lit lon) (lit lat).

(** Scenario A: [(0,0) -> (0,0)], [(100,0) -> (lon 0, lat 1)]. *)
Definition scenarioA : list (Ref.t N) :=
  [point 0 0 0 0; point 100 0 0 1].

(** Scenario B: [(0,0) -> (10,20)], [(1,0) -> (11,20)], [(0,1) -> (10,21)]. *)
Definition scenarioB : list (Ref.t N) :=
  [point 0 0 10 20; point 1 0 11 20; point 0 1 10 21].

(** Three collinear points: [(0,0) -> (0,0)], [(1,0) -> (1,0)], [(2,0) -> (2,0)]. *)
Definition collinear3 : list (Ref.t N) :=
  [point 0 0 0 0; point 1 0 1 0; point 2 0 2 0].

(** Scenario C: [a=1, b=2, d=2, e=4], with no offset. *)
Definition scenarioC : Affine.t N :=
  Affine.mk (lit 1) (lit 2) (lit 0) (lit 2) (lit 4) (lit 0).

(** Two points on one pixel: [(0,0) -> (0,0)], [(0,0) -> (1,0)]. *)
Definition coincident2 : list (Ref.t N) :=
  [point 0 0 0 0; point 0 0 1 0].

(** A model close to singular whose determinant still passes the guard of
    [geoToImage]: [a = b = d = 1024], [e = 1024 + 2^-42], no offset; the
    determinant is [2^-32], about [2.33e-10].  Every coefficient is a
    double. *)
Definition nearSingular : Affine.t N :=
  Affine.mk (lit 1024) (lit 1024) (lit 0)
            (lit 1024) (lit 1024 + lit 1 / lit 4398046511104)%js (lit 0).
End Scenarios.

(** ** The triangle-based fitter of the other copy of the module

    A second copy of [transforms.js] in the repository fits the affine
    transform from the first three points only, with [fromTriangles] of
    the npm package [transformation-matrix].  The source of the package
    is not in the repository, so the fitter takes [fromTriangles] as a
    parameter. *)

(** The package's matrix [{a, b, c, d, e, f}]:
    [x' = a*x + c*y + e], [y' = b*x + d*y + f]. *)
Module Matrix.
Record t (N : Type) : Type := mk { a : N; b : N; c : N; d : N; e : N; f : N }.
Arguments mk {N} _ _ _ _ _ _.

Section Ops.
Context {N : Type} {num : Number N}.
Local Open Scope js_scope.

Definition applyToPoint (m : t N) (p : N * N) : N * N :=
  (a m * fst p + c m * snd p + e m, b m * fst p + d m * snd p + f m).

Definition inverse (m : t N) : t N :=
  let denom := a m * d m - b m * c m in
  mk (d m / denom) (b m / - denom) (c m / - denom) (a m / denom)
     ((d m * e m - c m * f m) / - denom)
     ((b m * e m - a m * f m) / denom).

(** [compose m1 m2] applies [m2] first. *)
Definition compose (m1 m2 : t N) : t N :=
  mk (a m1 * a m2 + c m1 * b m2)
     (b m1 * a m2 + d m1 * b m2)
     (a m1 * c m2 + c m1 * d m2)
     (b m1 * c m2 + d m1 * d m2)
     (a m1 * e m2 + c m1 * f m2 + e m1)
     (b m1 * e m2 + d m1 * f m2 + f m1).

(** The matrix that takes [(1,0)], [(0,1)], [(0,0)] to [p], [q], [r]. *)
Definition frame (p q r : N * N) : t N :=
  mk (fst p - fst r) (snd p - snd r) (fst q - fst r) (snd q - snd r)
     (fst r) (snd r).

(** Modelled from the spec: [fromTriangles] of [transformation-matrix]
    is missing from the sources.  The specification reads the
    three-point fit as exact interpolation, and the package documents
    [fromTriangles(t1, t2)] as the matrix that transforms triangle [t1]
    into triangle [t2]; this is the closed form of that affine map.
    [None] when either argument is not a triangle. *)
Definition fromTriangles (t1 t2 : list (N * N)) : option (t N) :=
  match t1, t2 with
  | [p1; q1; r1], [p2; q2; r2] =>
      Some (compose (frame p2 q2 r2) (inverse (frame p1 q1 r1)))
  | _, _ => None
  end.
End Ops.
End Matrix.

Module TriangleFit.
Section Fit.
Context {N : Type} {num : Number N}.
(** [None] stands for a thrown exception. *)
Variable fromTriangles : list (N * N) -> list (N * N) -> option (Matrix.t N).

Definition computeAffineTransform (referencePoints : list (Ref.t N))
  : result (Affine.t N) :=
  if (List.length referencePoints <? 3)%nat then Err (InsufficientPoints 3) else
  let imageTriangle :=
    map (fun p => (Ref.imageX p, Ref.imageY p)) (firstn 3 referencePoints) in
  let geoTriangle :=
    map (fun p => (Ref.lon p, Ref.lat p)) (firstn 3 referencePoints) in
  match fromTriangles imageTriangle geoTriangle with
  | Some matrix =>
      Ok (Affine.mk (Matrix.a matrix) (Matrix.c matrix) (Matrix.e matrix)
                    (Matrix.b matrix) (Matrix.d matrix) (Matrix.f matrix))
  | None => Err CollinearPoints
  end.
End Fit.
End TriangleFit.

(** The documented behaviour of [fromTriangles], over the reals: on a
    proper (non-collinear) source triangle, the matrix it returns takes
    each vertex of the first triangle to the matching vertex of the
    second. *)
Definition proper_triangle (p q r : R * R) : Prop :=
  ((fst q - fst p) * (snd r - snd p) - (fst r - fst p) * (snd q - snd p) <> 0)%R.

Definition fromTriangles_contract
  (fromTriangles : list (R * R) -> list (R * R) -> option (Matrix.t R)) : Prop :=
  forall p1 q1 r1 p2 q2 r2 m,
    proper_triangle p1 q1 r1 ->
    fromTriangles [p1; q1; r1] [p2; q2; r2] = Some m ->
    Matrix.applyToPoint m p1 = p2 /\
    Matrix.applyToPoint m q1 = q2 /\
    Matrix.applyToPoint m r1 = r2.

(** ** Vocabulary of the statements *)

(** The inverse of a real model is defined: the [type] string matches
    the model, the similarity scale is nonzero, the affine determinant is
    at least [1e-10] in magnitude. *)
Definition inverse_defined (M : Transform R) (type : string) : Prop :=
  match M with
  | SimilarityT s => type = "similarity"%string /\ Similarity.scale s <> 0%R
  | AffineT t =>
      type = "affine"%string /\
      (1 / 10000000000 <=
       Rabs (Affine.a t * Affine.e t - Affine.b t * Affine.d t))%R
  end.

(** The two pixels of a pair of reference points differ. *)
Definition distinct_pixels (p1 p2 : Ref.t R) : Prop :=
  Ref.imageX p1 <> Ref.imageX p2 \/ Ref.imageY p1 <> Ref.imageY p2.

(** A double is zero or NaN; a double is infinite or NaN. *)
Definition zero_or_nan (x : spec_float) : Prop :=
  match x with
  | S754_zero _ | S754_nan => True
  | _ => False
  end.

Definition not_finite (x : spec_float) : Prop :=
  match x with
  | S754_infinity _ | S754_nan => True
  | _ => False
  end.

(** The two zeros of binary64. *)
Definition signed_zero (negative : bool) : float :=
  if negative then (-0)%float else 0%float.

(** ** Further vocabulary *)

From Stdlib Require Import Permutation Sorted.

(** Twice the signed area of the pixel triangle of three points. *)
Definition pixel_cross (p1 p2 p3 : Ref.t R) : R :=
  (Ref.imageX p1 * (Ref.imageY p2 - Ref.imageY p3)
   + Ref.imageX p2 * (Ref.imageY p3 - Ref.imageY p1)
   + Ref.imageX p3 * (Ref.imageY p1 - Ref.imageY p2))%R.

(** A reference point lies exactly on the affine map
    [lon = A*x + B*y + C], [lat = D*x + E*y + F]. *)
Definition on_affine_map (A B C D E F : R) (p : Ref.t R) : Prop :=
  (Ref.lon p = A * Ref.imageX p + B * Ref.imageY p + C /\
   Ref.lat p = D * Ref.imageX p + E * Ref.imageY p + F)%R.

(** ** [geoToImage] of the other copy of the module

    In the second copy of [transforms.js] the affine branch of
    [geoToImage] builds the package's matrix from the coefficients and
    hands it to [inverse] and [applyToPoint] of [transformation-matrix].
    [inverse] is a parameter, like [fromTriangles]; [None] stands for a
    falsy result, the only case in which this copy throws
    ['Transform is singular']. *)
Module TriangleCopy.
Section Inverse.
Context {N : Type} {num : Number N} {trig : Trig N}.
Local Open Scope js_scope.
Variable inverse : Matrix.t N -> option (Matrix.t N).

Definition geoToImage (lon lat : N) (transform : Transform N) (type : string)
  : result (Img.t N) :=
  if String.eqb type "similarity" then
    match transform with
    | SimilarityT (Similarity.mk scale rotation tx ty) =>
        let cos_r := Math_cos rotation in
        let sin_r := Math_sin rotation in
        (* Inverse transformation *)
        let lon_shifted := lon - tx in
        let lat_shifted := lat - ty in
        let imageX := (cos_r * lon_shifted + sin_r * lat_shifted) / scale in
        let imageY := (- sin_r * lon_shifted + cos_r * lat_shifted) / scale in
        Ok (Img.mk imageX imageY)
    | AffineT _ => Err ForeignShape
    end
  else if String.eqb type "affine" then
    match transform with
    | AffineT (Affine.mk a b c d e f) =>
        (* { a, b: d, c: b, d: e, e: c, f } *)
        let matrix := Matrix.mk a d b e c f in
        match inverse matrix with
        | None => Err SingularTransform
        | Some inverseMatrix =>
            (* Apply inverse transformation *)
            let result := Matrix.applyToPoint inverseMatrix (lon, lat) in
            Ok (Img.mk (fst result) (snd result))
        end
    | SimilarityT _ => Err ForeignShape
    end
  else Err UnknownTransformType.
End Inverse.
End TriangleCopy.

(** The documented behaviour of [inverse], over the reals: the matrix it
    returns for a matrix of nonzero determinant undoes that matrix. *)
Definition inverse_contract (inverse : Matrix.t R -> option (Matrix.t R)) : Prop :=
  forall m m' p,
    (Matrix.a m * Matrix.d m - Matrix.b m * Matrix.c m <> 0)%R ->
    inverse m = Some m' ->
    Matrix.applyToPoint m' (Matrix.applyToPoint m p) = p.

(** ** The map viewer

    The script of the [MapViewer] component keeps the view of the canvas
    in component variables; the functions below take them in a [State]
    and return the updated [State] where they assign. *)

(** Comparison, truthiness and the exact functions of [Math] that the
    viewer adds to the arithmetic of [Number]. *)
Class Order (N : Type) : Type := {
  num_leb : N -> N -> bool;    (* [x <= y] *)
  num_falsy : N -> bool;       (* [!x]: [x] is [0] or [NaN] *)
  num_isNaN : N -> bool;       (* [isNaN(x)] *)
  Math_min : N -> N -> N;
  Math_max : N -> N -> N
}.

(** [Math.hypot], implementation-approximated like the functions of [Trig]. *)
Class Hypot (N : Type) : Type := {
  Math_hypot : N -> N -> N
}.

Infix "<=?" := num_leb : js_scope.

Definition Rleb (x y : R) : bool := if Rle_dec x y then true else false.

#[export] Instance RealOrder : Order R := {|
  num_leb := Rleb;
  num_falsy := fun x => if Req_dec_T x 0%R then true else false;
  num_isNaN := fun _ => false;
  Math_min := Rmin;
  Math_max := Rmax
|}.

#[export] Instance RealHypot : Hypot R := {|
  Math_hypot := fun x y => R_sqrt.sqrt (x * x + y * y)%R
|}.

(** [Math.min] and [Math.max] on doubles: NaN if either argument is NaN,
    and [-0] counts as smaller than [+0]. *)
Definition float_min (x y : float) : float :=
  if (PrimFloat.is_nan x || PrimFloat.is_nan y)%bool then nan
  else if PrimFloat.ltb x y then x
  else if PrimFloat.ltb y x then y
  else if PrimFloat.get_sign x then x else y.

Definition float_max (x y : float) : float :=
  if (PrimFloat.is_nan x || PrimFloat.is_nan y)%bool then nan
  else if PrimFloat.ltb x y then y
  else if PrimFloat.ltb y x then x
  else if PrimFloat.get_sign x then y else x.

#[export] Instance Binary64Order : Order float := {|
  num_leb := PrimFloat.leb;
  num_falsy := fun x => (PrimFloat.eqb x 0 || PrimFloat.is_nan x)%bool;
  num_isNaN := PrimFloat.is_nan;
  Math_min := float_min;
  Math_max := float_max
|}.

Module Viewer.

(** The view transform [{scale, translateX, translateY, rotation}]. *)
Record ViewTransform (N : Type) : Type := mkTransform {
  scale : N; translateX : N; translateY : N; rotation : N
}.
Arguments mkTransform {N} _ _ _ _.

(** The component variables that the modelled functions read or assign. *)
Record State (N : Type) : Type := mkState {
  transform : ViewTransform N;
  imageWidth : N; imageHeight : N;
  canvasWidth : N; canvasHeight : N;
  showingPoints : bool;
  referencePoints : list (Ref.t N)
}.
Arguments mkState {N} _ _ _ _ _ _ _.

Section Functions.
Context {N : Type} {num : Number N} {trig : Trig N} {ord : Order N} {hyp : Hypot N}.
Local Open Scope js_scope.

(** The literals [0.9], [1.1] and [0.1]: each quotient is correctly
    rounded, so in binary64 it is the double the literal denotes. *)
Definition lit_0_9 : N := lit 9 / lit 10.
Definition lit_1_1 : N := lit 11 / lit 10.
Definition lit_0_1 : N := lit 1 / lit 10.

Definition set_transform (st : State N) (t : ViewTransform N) : State N :=
  mkState t (imageWidth st) (imageHeight st) (canvasWidth st) (canvasHeight st)
          (showingPoints st) (referencePoints st).

Definition fitImageToCanvas (st : State N) : State N :=
  let scaleX := canvasWidth st / imageWidth st in
  let scaleY := canvasHeight st / imageHeight st in
  set_transform st
    (mkTransform (Math_min scaleX scaleY * lit_0_9)
                 (canvasWidth st / lit 2)
                 (canvasHeight st / lit 2)
                 (rotation (transform st))).

(** [(screenPointX, screenPointY)] of [getPointAtScreen]: where the
    canvas shows the pixel of a reference point. *)
Definition screenPoint (st : State N) (point : Ref.t N) : N * N :=
  let cos_r := Math_cos (rotation (transform st)) in
  let sin_r := Math_sin (rotation (transform st)) in
  (* Account for image centering offset *)
  let offsetX := Ref.imageX point - imageWidth st / lit 2 in
  let offsetY := Ref.imageY point - imageHeight st / lit 2 in
  let scaledX := offsetX * scale (transform st) in
  let scaledY := offsetY * scale (transform st) in
  let rotatedX := cos_r * scaledX - sin_r * scaledY in
  let rotatedY := sin_r * scaledX + cos_r * scaledY in
  (rotatedX + translateX (transform st), rotatedY + translateY (transform st)).

(** The loop of [getPointAtScreen], from index [i] on. *)
Fixpoint hit_from (st : State N) (screenX screenY : N)
  (points : list (Ref.t N)) (i : nat) : Z :=
  match points with
  | [] => (-1)%Z
  | point :: rest =>
      let clickRadius := lit 20 in
      let '(screenPointX, screenPointY) := screenPoint st point in
      let dist := Math_hypot (screenX - screenPointX) (screenY - screenPointY) in
      if dist <=? clickRadius then Z.of_nat i
      else hit_from st screenX screenY rest (S i)
  end.

Definition getPointAtScreen (st : State N) (screenX screenY : N) : Z :=
  if negb (showingPoints st) then (-1)%Z
  else hit_from st screenX screenY (referencePoints st) 0.

(** The test of the loop for one point: the screen position lies within
    the click radius of 20 pixels around the shown point. *)
Definition within_click (st : State N) (screenX screenY : N) (point : Ref.t N) : bool :=
  Math_hypot (screenX - fst (screenPoint st point))
             (screenY - snd (screenPoint st point)) <=? lit 20.

(** [None] is the returned [null]; [Some (x, y)] is [{x, y}]. *)
Definition screenToImage (st : State N) (screenX screenY : N) : option (N * N) :=
  if (num_falsy (imageWidth st) || num_falsy (imageHeight st))%bool then None else
  (* Apply inverse transformations to get image coordinates *)
  let cos_r := Math_cos (- rotation (transform st)) in
  let sin_r := Math_sin (- rotation (transform st)) in
  (* Translate to origin *)
  let x := screenX - translateX (transform st) in
  let y := screenY - translateY (transform st) in
  (* Apply inverse rotation *)
  let rotatedX := cos_r * x - sin_r * y in
  let rotatedY := sin_r * x + cos_r * y in
  (* Apply inverse scale and translate to image coordinates *)
  let imageX := (rotatedX / scale (transform st)) + (imageWidth st / lit 2) in
  let imageY := (rotatedY / scale (transform st)) + (imageHeight st / lit 2) in
  (* Check if coordinates are within image bounds *)
  if ((lit 0 <=? imageX) && (imageX <=? imageWidth st)
      && (lit 0 <=? imageY) && (imageY <=? imageHeight st))%bool
  then Some (imageX, imageY)
  else None.

(** [handleWheel], from the [deltaY] of the event. *)
Definition handleWheel (deltaY : N) (st : State N) : State N :=
  let scaleFactor := if lit 0 <? deltaY then lit_0_9 else lit_1_1 in
  let t := transform st in
  let scale1 := scale t * scaleFactor in
  let scale2 := Math_max lit_0_1 (Math_min (lit 10) scale1) in
  set_transform st (mkTransform scale2 (translateX t) (translateY t) (rotation t)).

(** The two-finger branch of [handleTouchMove]: [touch1] and [touch2] are
    the [(clientX, clientY)] of the two touches, [lastTouchDistance] and
    [touchStartTransform] what [handleTouchStart] recorded. *)
Definition pinch (touch1 touch2 : N * N) (lastTouchDistance : N)
  (touchStartTransform : ViewTransform N) (st : State N) : State N :=
  let distance := Math_hypot (fst touch2 - fst touch1) (snd touch2 - snd touch1) in
  let angle := Math_atan2 (snd touch2 - snd touch1) (fst touch2 - fst touch1) in
  let center := ((fst touch1 + fst touch2) / lit 2, (snd touch1 + snd touch2) / lit 2) in
  (* Scale *)
  let scaleFactor := distance / lastTouchDistance in
  let newScale := scale touchStartTransform * scaleFactor in
  let clampedScale := Math_max lit_0_1 (Math_min (lit 10) newScale) in
  (* Calculate zoom center adjustment *)
  let scaleChange := clampedScale / scale touchStartTransform in
  (* Adjust translation to keep the pinch center fixed during zoom *)
  let pinchCenterOffsetX := fst center - translateX touchStartTransform in
  let pinchCenterOffsetY := snd center - translateY touchStartTransform in
  (* Apply the scale change to the offset *)
  let scaledOffsetX := pinchCenterOffsetX * scaleChange in
  let scaledOffsetY := pinchCenterOffsetY * scaleChange in
  (* Calculate new translation to keep pinch center fixed *)
  set_transform st
    (mkTransform clampedScale
                 (fst center - scaledOffsetX)
                 (snd center - scaledOffsetY)
                 (rotation (transform st))).

(** The [alert] that [useManualCoordinates] shows. *)
Inductive Alert : Type := InvalidNumbers | LatitudeRange | LongitudeRange.

Definition alert_message (a : Alert) : string :=
  match a with
  | InvalidNumbers => "Please enter valid numbers"
  | LatitudeRange => "Latitude must be between -90 and 90"
  | LongitudeRange => "Longitude must be between -180 and 180"
  end.

(** [useManualCoordinates], from the two numbers that [parseFloat] made
    of the input fields: the alert shown, if any, and [(selectedLat,
    selectedLon)] afterwards ([None] is [null]).  The picker component
    has the same function. *)
Definition useManualCoordinates (lat lon : N) (selected : option N * option N)
  : option Alert * (option N * option N) :=
  if (num_isNaN lat || num_isNaN lon)%bool then (Some InvalidNumbers, selected)
  else if ((lat <? lit (-90)) || (lit 90 <? lat))%bool
       then (Some LatitudeRange, selected)
  else if ((lon <? lit (-180)) || (lit 180 <? lon))%bool
       then (Some LongitudeRange, selected)
  else (None, (Some lat, Some lon)).
End Functions.
End Viewer.

(** ** The map list

    [createThumbnail] of the [MapList] component draws the image on a
    canvas of at most 200 by 200 pixels; [thumbnailSize] is its
    computation of [width] and [height] from the size of the image, up
    to the assignment to the canvas. *)
Module MapList.
Section Thumbnail.
Context {N : Type} {num : Number N}.
Local Open Scope js_scope.

Definition thumbnailSize (imgWidth imgHeight : N) : N * N :=
  let MAX_SIZE := lit 200 in
  let width := imgWidth in
  let height := imgHeight in
  if height <? width then
    if MAX_SIZE <? width then (MAX_SIZE, height * (MAX_SIZE / width))
    else (width, height)
  else
    if MAX_SIZE <? height then (width * (MAX_SIZE / height), MAX_SIZE)
    else (width, height).
End Thumbnail.
End MapList.

(** ** The module [src/lib/db.js]

    IndexedDB belongs to the browser.  An object store with
    [keyPath: 'id'] and [autoIncrement: true] is modelled as the list of
    its records in ascending key order together with its key generator
    (the last key it handed out, [0] at first).  Every function of the
    module runs in one transaction and is modelled as one step on the
    two stores; a request that the browser fails is not modelled. *)
Module DB.

(** A record of the store ['maps']. *)
Record MapRecord (Blob : Type) : Type := mkMap {
  map_id : Z; name : string; imageBlob : Blob; thumbnail : string;
  map_timestamp : Z
}.
Arguments mkMap {Blob} _ _ _ _ _.

(** The argument [{name, imageBlob, thumbnail}] of [addMap]. *)
Record MapData (Blob : Type) : Type := mkMapData {
  data_name : string; data_imageBlob : Blob; data_thumbnail : string
}.
Arguments mkMapData {Blob} _ _ _.

(** A record of the store ['referencePoints']. *)
Record PointRecord (N : Type) : Type := mkPoint {
  id : Z; mapId : Z; imageX : N; imageY : N; lon : N; lat : N; timestamp : Z
}.
Arguments mkPoint {N} _ _ _ _ _ _ _.

(** The argument [{mapId, imageX, imageY, lon, lat}] of [addReferencePoint]. *)
Record PointData (N : Type) : Type := mkPointData {
  data_mapId : Z; data_imageX : N; data_imageY : N; data_lon : N; data_lat : N
}.
Arguments mkPointData {N} _ _ _ _ _.

(** The argument [updates] of [updateReferencePoint]: the coordinate
    fields it may carry ([None] for an absent field).  The viewer passes
    [{lon, lat}]. *)
Record Updates (N : Type) : Type := mkUpdates {
  new_imageX : option N; new_imageY : option N;
  new_lon : option N; new_lat : option N
}.
Arguments mkUpdates {N} _ _ _ _.

(** The database: the two object stores and their key generators. *)
Record Store (Blob N : Type) : Type := mkStore {
  maps : list (MapRecord Blob); maps_key : Z;
  points : list (PointRecord N); points_key : Z
}.
Arguments mkStore {Blob N} _ _ _ _.

(** The rejection of [updateReferencePoint]. *)
Inductive Rejection : Type := PointNotFound.

Definition rejection_message (r : Rejection) : string :=
  match r with PointNotFound => "Point not found" end.

Section Operations.
Context {Blob N : Type}.

(** The database that [initDB] creates on first use. *)
Definition empty : Store Blob N := mkStore [] 0 [] 0.

(** [addMap(mapData)] at time [now = Date.now()]: the new key and the
    database afterwards. *)
Definition addMap (mapData : MapData Blob) (now : Z) (db : Store Blob N)
  : Z * Store Blob N :=
  let key := (maps_key db + 1)%Z in
  let map := mkMap key (data_name mapData) (data_imageBlob mapData)
                   (data_thumbnail mapData) now in
  (key, mkStore (maps db ++ [map]) key (points db) (points_key db)).

Definition getAllMaps (db : Store Blob N) : list (MapRecord Blob) := maps db.

(** [getMap(mapId)]: [None] is the [undefined] of a missing key. *)
Definition getMap (mapId : Z) (db : Store Blob N) : option (MapRecord Blob) :=
  find (fun m => Z.eqb (map_id m) mapId) (maps db).

(** [deleteMap(mapId)]: the map goes, and the cursor over the index
    ['mapId'] deletes every reference point of the map. *)
Definition deleteMap (mapId_ : Z) (db : Store Blob N) : Store Blob N :=
  mkStore (filter (fun m => negb (Z.eqb (map_id m) mapId_)) (maps db))
          (maps_key db)
          (filter (fun p => negb (Z.eqb (mapId p) mapId_)) (points db))
          (points_key db).

Definition addReferencePoint (pointData : PointData N) (now : Z) (db : Store Blob N)
  : Z * Store Blob N :=
  let key := (points_key db + 1)%Z in
  let point := mkPoint key (data_mapId pointData)
                       (data_imageX pointData) (data_imageY pointData)
                       (data_lon pointData) (data_lat pointData) now in
  (key, mkStore (maps db) (maps_key db) (points db ++ [point]) key).

(** [getReferencePoints(mapId)]: [getAll] on the index ['mapId']. *)
Definition getReferencePoints (mapId_ : Z) (db : Store Blob N)
  : list (PointRecord N) :=
  filter (fun p => Z.eqb (mapId p) mapId_) (points db).

(** [{ ...point, ...updates }]. *)
Definition merge (point : PointRecord N) (updates : Updates N) : PointRecord N :=
  let pick (new : option N) (old : N) := match new with Some v => v | None => old end in
  mkPoint (id point) (mapId point)
          (pick (new_imageX updates) (imageX point))
          (pick (new_imageY updates) (imageY point))
          (pick (new_lon updates) (lon point))
          (pick (new_lat updates) (lat point))
          (timestamp point).

(** [updateReferencePoint(pointId, updates)]: the rejection, or the
    updated point it resolves to, and the database afterwards. *)
Definition updateReferencePoint (pointId : Z) (updates : Updates N) (db : Store Blob N)
  : (Rejection + PointRecord N) * Store Blob N :=
  match find (fun p => Z.eqb (id p) pointId) (points db) with
  | None => (inl PointNotFound, db)
  | Some point =>
      let updatedPoint := merge point updates in
      (inr updatedPoint,
       mkStore (maps db) (maps_key db)
               (map (fun p => if Z.eqb (id p) pointId then updatedPoint else p)
                    (points db))
               (points_key db))
  end.

Definition deleteReferencePoint (pointId : Z) (db : Store Blob N) : Store Blob N :=
  mkStore (maps db) (maps_key db)
          (filter (fun p => negb (Z.eqb (id p) pointId)) (points db))
          (points_key db).

(** The keys of each store are distinct, ascending, positive, and not
    above the key generator. *)
Definition keys_ok (keys : list Z) (last : Z) : Prop :=
  StronglySorted Z.lt keys /\ Forall (fun k => 0 < k <= last)%Z keys.

Definition well_formed (db : Store Blob N) : Prop :=
  keys_ok (map (@map_id Blob) (maps db)) (maps_key db) /\
  keys_ok (map (@id N) (points db)) (points_key db).

(** One call of the module, for statements about every sequence of calls. *)
Inductive Call : Type :=
| CallAddMap (mapData : MapData Blob) (now : Z)
| CallDeleteMap (mapId : Z)
| CallAddReferencePoint (pointData : PointData N) (now : Z)
| CallUpdateReferencePoint (pointId : Z) (updates : Updates N)
| CallDeleteReferencePoint (pointId : Z).

Definition run (c : Call) (db : Store Blob N) : Store Blob N :=
  match c with
  | CallAddMap mapData now => snd (addMap mapData now db)
  | CallDeleteMap mapId => deleteMap mapId db
  | CallAddReferencePoint pointData now => snd (addReferencePoint pointData now db)
  | CallUpdateReferencePoint pointId updates =>
      snd (updateReferencePoint pointId updates db)
  | CallDeleteReferencePoint pointId => deleteReferencePoint pointId db
  end.
End Operations.
End DB.

(** ** Further inputs *)

(** A view of a 400 by 300 image on an 800 by 600 canvas, zoomed twice. *)
Definition example_view : Viewer.State R :=
  (Viewer.mkState (Viewer.mkTransform 2 100 50 0) 400 300 800 600 true [])%R.

(** A database with one map and one reference point on it. *)
Definition example_point : DB.PointRecord Z :=
  (DB.mkPoint 1 1 120 80 11 46 1700000000000)%Z.

Definition example_db : DB.Store unit Z :=
  (DB.mkStore [DB.mkMap 1 "trail.jpg" tt "thumb" 1700000000000] 1 [example_point] 1)%Z.

(** * Properties *)

(** ** Guards of the module, at any number type *)

Section Guards.
Context {N : Type} {num : Number N} {trig : Trig N}.
Local Open Scope js_scope.

Lemma short_list_ltb (A : Type) (l : list A) (k : nat) :
  (k <= List.length l)%nat -> (List.length l <? k)%nat = false.
Proof. intros H. apply Nat.ltb_ge. exact H. Qed.


(** C5: an affine model whose determinant [a*e - b*d] is below [1e-10]
    in magnitude makes [geoToImage] fail with [SingularTransform] at
    every geographic input; no coordinates are returned. *)
Theorem singular_affine_rejected (t : Affine.t N) (lon lat : N) :
  (Math_abs (Affine.a t * Affine.e t - Affine.b t * Affine.d t) <? tol) = true ->
  geoToImage lon lat (AffineT t) "affine" = Err SingularTransform.
Proof.
  intros Hdet. destruct t as [a b c d e f]. cbn in Hdet |- *.
  rewrite Hdet. reflexivity.
Qed.

(** The affine fitter goes on to the closed-form solve exactly when the
    determinant passes the guard. *)
Lemma affine_fit_succeeds (referencePoints : list (Ref.t N)) :
  (3 <= List.length referencePoints)%nat ->
  (Math_abs (normal_det (point_count referencePoints)
                        (affine_sums referencePoints)) <? tol) = false ->
  exists t, computeAffineTransform referencePoints = Ok t.
Proof.
  intros Hlen Hdet. unfold computeAffineTransform.
  rewrite (short_list_ltb _ Hlen). cbv zeta. rewrite Hdet. eexists. reflexivity.
Qed.

(** The similarity fitter has no guard beyond the point count. *)
Lemma similarity_fit_succeeds (referencePoints : list (Ref.t N)) :
  (2 <= List.length referencePoints)%nat ->
  exists t, computeSimilarityTransform referencePoints = Ok t.
Proof.
  intros Hlen. unfold computeSimilarityTransform.
  rewrite (short_list_ltb _ Hlen). eexists. reflexivity.
Qed.

(** C8, as the code has it: no transform for a missing list or fewer
    than two points; the similarity fit of the two points, tagged
    ["similarity"], for exactly two; and for three or more the result of
    the affine fitter on the whole list: its model tagged ["affine"]
    when it succeeds, its error when it fails. *)
Theorem model_selection :
  calculateTransform None = Ok None /\
  calculateTransform (Some []) = Ok None /\
  (forall p, calculateTransform (Some [p]) = Ok None) /\
  (forall p1 p2,
      exists t, computeSimilarityTransform [p1; p2] = Ok t /\
                calculateTransform (Some [p1; p2])
                = Ok (Some (mkFit (SimilarityT t) "similarity"))) /\
  (forall p1 p2 p3 rest,
      calculateTransform (Some (p1 :: p2 :: p3 :: rest))
      = match computeAffineTransform (p1 :: p2 :: p3 :: rest) with
        | Ok t => Ok (Some (mkFit (AffineT t) "affine"))
        | Err e => Err e
        end).
Proof.
  repeat split; try reflexivity.
  intros p1 p2. eexists. split; reflexivity.
Qed.
End Guards.

(** ** Evaluating the real instance *)

Lemma Rltb_true (x y : R) : (x < y)%R -> Rltb x y = true.
Proof. intros H. unfold Rltb. destruct (Rlt_dec x y); [reflexivity | contradiction]. Qed.

Lemma Rltb_false (x y : R) : (y <= x)%R -> Rltb x y = false.
Proof. intros H. unfold Rltb. destruct (Rlt_dec x y); [lra | reflexivity]. Qed.

Ltac real_ops :=
  cbv [num_add num_sub num_mul num_div num_neg num_ltb Math_abs Math_sqrt lit tol
       RealNumber Math_cos Math_sin Math_atan2 RealTrig].

Ltac unfold_fit :=
  unfold computeAffineTransform, computeSimilarityTransform,
    nth_point, normal_det, affine_sums, point_count, zero_sums,
    scenarioA, scenarioB, collinear3, coincident2, scenarioC, point;
  cbn [List.length Nat.ltb Nat.leb Nat.eqb nth fold_left accumulate
       sum_x sum_y sum_x2 sum_y2 sum_xy sum_lon sum_lat
       sum_x_lon sum_y_lon sum_x_lat sum_y_lat
       Ref.imageX Ref.imageY Ref.lon Ref.lat Z.of_nat Pos.of_succ_nat Pos.succ];
  real_ops.

Ltac real_ops_in H :=
  cbv [num_add num_sub num_mul num_div num_neg num_ltb Math_abs Math_sqrt lit tol
       RealNumber Math_cos Math_sin Math_atan2 RealTrig] in H.

(** Settles a guard [|d| < 1e-10] whose [d] is a closed expression worth [v]. *)
Ltac guard_value v :=
  match goal with
  | |- context [Rltb (Rabs ?d) ?t] =>
      replace d with v by lra;
      first [ rewrite (Rltb_true (x := Rabs v) (y := t))
                by (unfold Rabs; destruct (Rcase_abs v); lra)
            | rewrite (Rltb_false (x := Rabs v) (y := t))
                by (unfold Rabs; destruct (Rcase_abs v); lra) ]
  end.

Section RealScenarios.
Local Open Scope R_scope.

(** For three points the determinant of the normal equations is the
    square of twice the area of the pixel triangle. *)
Lemma normal_det_three (p1 p2 p3 : Ref.t R) :
  normal_det (point_count [p1; p2; p3]) (affine_sums [p1; p2; p3])
  = Rsqr (Ref.imageX p1 * (Ref.imageY p2 - Ref.imageY p3)
          + Ref.imageX p2 * (Ref.imageY p3 - Ref.imageY p1)
          + Ref.imageX p3 * (Ref.imageY p1 - Ref.imageY p2)).
Proof.
  destruct p1 as [x1 y1 l1 t1], p2 as [x2 y2 l2 t2], p3 as [x3 y3 l3 t3].
  unfold_fit. unfold Rsqr. ring.
Qed.

(** Three points whose pixels lie on one line are always rejected. *)
Lemma collinear_triple_rejected (p1 p2 p3 : Ref.t R) :
  Ref.imageX p1 * (Ref.imageY p2 - Ref.imageY p3)
  + Ref.imageX p2 * (Ref.imageY p3 - Ref.imageY p1)
  + Ref.imageX p3 * (Ref.imageY p1 - Ref.imageY p2) = 0 ->
  computeAffineTransform [p1; p2; p3] = Err CollinearPoints.
Proof.
  intros Hline.
  pose proof (normal_det_three p1 p2 p3) as Hdet.
  rewrite Hline, Rsqr_0 in Hdet.
  unfold computeAffineTransform. cbn [List.length Nat.ltb Nat.leb]. cbv zeta.
  rewrite Hdet. real_ops.
  rewrite Rltb_true; [reflexivity |]. rewrite Rabs_R0. lra.
Qed.

(** The forward evaluator on the model that scenario B calls for. *)
Lemma offset_model_forward :
  imageToGeo 5 5 (AffineT (Affine.mk 1 0 10 0 1 20)) "affine" = Ok (Geo.mk 15 25).
Proof. cbn. real_ops. f_equal. f_equal; lra. Qed.

(** The affine fit of scenario B, computed exactly. *)
Lemma scenarioB_model :
  computeAffineTransform (N := R) scenarioB
  = Ok (Affine.mk 1 31 (- (1 / 3)) 0 62 (- (1 / 3))).
Proof.
  unfold_fit. guard_value 1. f_equal. f_equal; lra.
Qed.

(** C1 at the code: on the three points of scenario B the fitter
    returns [a=1, b=31, c=-1/3, d=0, e=62, f=-1/3], not
    [a=1, b=0, c=10, d=0, e=1, f=20], and the fitted model sends pixel
    [(5,5)] to [(479/3, 929/3)], not to [(15,25)]. *)
Theorem scenarioB_fit :
  computeAffineTransform (N := R) scenarioB
  = Ok (Affine.mk 1 31 (- (1 / 3)) 0 62 (- (1 / 3))) /\
  imageToGeo 5 5 (AffineT (Affine.mk 1 31 (- (1 / 3)) 0 62 (- (1 / 3)))) "affine"
  = Ok (Geo.mk (479 / 3) (929 / 3)).
Proof.
  split; [exact scenarioB_model |].
  cbn. real_ops. f_equal. f_equal; lra.
Qed.

(** C3 at the code: the model fitted from scenario B sends none of the
    three pixels it was fitted from to its geographic partner:
    [(0,0)] goes to [(-1/3,-1/3)] instead of [(10,20)], [(1,0)] to
    [(2/3,-1/3)] instead of [(11,20)], [(0,1)] to [(92/3,185/3)]
    instead of [(10,21)]. *)
Theorem scenarioB_not_interpolated :
  exists M,
    computeAffineTransform (N := R) scenarioB = Ok M /\
    imageToGeo 0 0 (AffineT M) "affine" = Ok (Geo.mk (- (1 / 3)) (- (1 / 3))) /\
    imageToGeo 1 0 (AffineT M) "affine" = Ok (Geo.mk (2 / 3) (- (1 / 3))) /\
    imageToGeo 0 1 (AffineT M) "affine" = Ok (Geo.mk (92 / 3) (185 / 3)).
Proof.
  eexists. split; [exact scenarioB_model |].
  repeat split; cbn; real_ops; f_equal; f_equal; lra.
Qed.
End RealScenarios.

(** ** The similarity fit over the reals *)

Section RealSimilarity.
Local Open Scope R_scope.

Lemma Ratan2_pos_x (y x : R) : 0 < x -> Ratan2 y x = atan (y / x).
Proof. intros H. unfold Ratan2. destruct (Rlt_dec 0 x); [reflexivity | contradiction]. Qed.

Lemma Ratan2_up (y : R) : 0 < y -> Ratan2 y 0 = PI / 2.
Proof.
  intros H. unfold Ratan2.
  destruct (Rlt_dec 0 0); [lra |].
  destruct (Rlt_dec 0 y); [reflexivity | contradiction].
Qed.

Lemma sqrt_sq_pos (x : R) : 0 <= x -> R_sqrt.sqrt (x * x) = x.
Proof. intros H. apply sqrt_square. exact H. Qed.

(** C9: the similarity fit of scenario A has scale [0.01] and rotation
    [PI/2] (and no translation), and the fitted model sends pixel
    [(50,0)] to [(lon, lat) = (0, 0.5)]. *)
Theorem scenarioA_fit :
  computeSimilarityTransform (N := R) scenarioA
  = Ok (Similarity.mk (1 / 100) (PI / 2) 0 0) /\
  imageToGeo 50 0 (SimilarityT (Similarity.mk (1 / 100) (PI / 2) 0 0)) "similarity"
  = Ok (Geo.mk 0 (1 / 2)).
Proof.
  split.
  - unfold_fit.
    replace ((0 - 0) * (0 - 0) + (1 - 0) * (1 - 0)) with (1 * 1) by lra.
    replace ((100 - 0) * (100 - 0) + (0 - 0) * (0 - 0)) with (100 * 100) by lra.
    rewrite !sqrt_sq_pos by lra.
    replace (1 - 0) with 1 by lra. replace (0 - 0) with 0 by lra.
    replace (100 - 0) with 100 by lra.
    rewrite Ratan2_up by lra. rewrite Ratan2_pos_x by lra.
    replace (0 / 100) with 0 by lra. rewrite atan_0.
    replace (PI / 2 - 0) with (PI / 2) by lra.
    rewrite cos_PI2, sin_PI2.
    f_equal. f_equal; lra.
  - cbn. real_ops. rewrite cos_PI2, sin_PI2. f_equal. f_equal; lra.
Qed.
End RealSimilarity.

(** ** Forward and inverse evaluation over the reals *)

Section RoundTrip.
Local Open Scope R_scope.



Lemma guard_nonzero (d : R) : 1 / 10000000000 <= Rabs d -> d <> 0.
Proof. intros H Hd. subst d. rewrite Rabs_R0 in H. lra. Qed.

End RoundTrip.

(** ** The two-point fit interpolates its points *)

Section Polar.
Local Open Scope R_scope.

(** For [x <> 0], the length of [(x, y)] and the angle [atan (y / x)]. *)
Lemma polar_atan (x y : R) :
  x <> 0 ->
  R_sqrt.sqrt (x * x + y * y) * cos (atan (y / x)) = Rabs x /\
  R_sqrt.sqrt (x * x + y * y) * sin (atan (y / x)) = Rabs x * (y / x).
Proof.
  intros Hx.
  set (t := y / x).
  assert (Hpos : 0 < 1 + t²) by (unfold Rsqr; nra).
  assert (HS : 0 < R_sqrt.sqrt (1 + t²)) by (apply sqrt_lt_R0; exact Hpos).
  assert (Hlen : R_sqrt.sqrt (x * x + y * y) = Rabs x * R_sqrt.sqrt (1 + t²)).
  { replace (x * x + y * y) with (Rsqr x * (1 + t²))
      by (unfold t, Rsqr; field; exact Hx).
    rewrite sqrt_mult; [| apply Rle_0_sqr | lra].
    rewrite sqrt_Rsqr_abs. reflexivity. }
  rewrite Hlen, cos_atan, sin_atan. split; field; lra.
Qed.

(** The vector [(x, y)] in polar form, with [Math.atan2] as its angle. *)
Lemma polar_form (x y : R) :
  R_sqrt.sqrt (x * x + y * y) * cos (Ratan2 y x) = x /\
  R_sqrt.sqrt (x * x + y * y) * sin (Ratan2 y x) = y.
Proof.
  unfold Ratan2.
  destruct (Rlt_dec 0 x) as [Hx | Hx].
  - destruct (polar_atan (x := x) y) as [Hc Hs]; [lra |].
    rewrite Hc, Hs, Rabs_pos_eq by lra. split; [reflexivity | field; lra].
  - destruct (Rlt_dec x 0) as [Hx' | Hx'].
    + destruct (polar_atan (x := x) y) as [Hc Hs]; [lra |].
      rewrite Rabs_left in Hc, Hs by exact Hx'.
      destruct (Rle_dec 0 y).
      * rewrite cos_plus, sin_plus, cos_PI, sin_PI.
        split; [ transitivity (- (R_sqrt.sqrt (x * x + y * y) * cos (atan (y / x))));
                 [ring | rewrite Hc; ring]
               | transitivity (- (R_sqrt.sqrt (x * x + y * y) * sin (atan (y / x))));
                 [ring | rewrite Hs; field; lra] ].
      * rewrite cos_minus, sin_minus, cos_PI, sin_PI.
        split; [ transitivity (- (R_sqrt.sqrt (x * x + y * y) * cos (atan (y / x))));
                 [ring | rewrite Hc; ring]
               | transitivity (- (R_sqrt.sqrt (x * x + y * y) * sin (atan (y / x))));
                 [ring | rewrite Hs; field; lra] ].
    + assert (x = 0) by lra. subst x.
      replace (0 * 0 + y * y) with (Rsqr y) by (unfold Rsqr; ring).
      rewrite sqrt_Rsqr_abs.
      destruct (Rlt_dec 0 y) as [Hy | Hy].
      * rewrite cos_PI2, sin_PI2, Rabs_pos_eq by lra. split; ring.
      * destruct (Rlt_dec y 0) as [Hy' | Hy'].
        -- rewrite cos_neg, sin_neg, cos_PI2, sin_PI2, Rabs_left by exact Hy'.
           split; ring.
        -- assert (y = 0) by lra. subst y.
           rewrite cos_0, sin_0, Rabs_R0. split; ring.
Qed.

Lemma length_nonzero (x y : R) :
  x <> 0 \/ y <> 0 -> R_sqrt.sqrt (x * x + y * y) <> 0.
Proof.
  intros H. apply Rgt_not_eq. apply sqrt_lt_R0.
  destruct H; nra.
Qed.

(** The rotation-and-scale of the fit takes the image displacement to
    the geographic displacement. *)
Lemma similarity_core (ri rg ci si cg sg dx dy dxg dyg : R) :
  ri <> 0 ->
  ri * ci = dx -> ri * si = dy -> rg * cg = dxg -> rg * sg = dyg ->
  si * si + ci * ci = 1 ->
  rg / ri * (cg * ci + sg * si) * dx - rg / ri * (sg * ci - cg * si) * dy = dxg /\
  rg / ri * (sg * ci - cg * si) * dx + rg / ri * (cg * ci + sg * si) * dy = dyg.
Proof.
  intros Hri <- <- <- <- Hcs. split.
  - transitivity (rg * cg * (si * si + ci * ci)); [field; exact Hri |].
    rewrite Hcs. ring.
  - transitivity (rg * sg * (si * si + ci * ci)); [field; exact Hri |].
    rewrite Hcs. ring.
Qed.

(** The similarity half of exact interpolation: the model fitted from
    two points with distinct pixels sends each of the two pixels to its
    geographic partner. *)
Theorem similarity_interpolates (p1 p2 : Ref.t R) :
  distinct_pixels p1 p2 ->
  exists M,
    computeSimilarityTransform [p1; p2] = Ok M /\
    imageToGeo (Ref.imageX p1) (Ref.imageY p1) (SimilarityT M) "similarity"
    = Ok (Geo.mk (Ref.lon p1) (Ref.lat p1)) /\
    imageToGeo (Ref.imageX p2) (Ref.imageY p2) (SimilarityT M) "similarity"
    = Ok (Geo.mk (Ref.lon p2) (Ref.lat p2)).
Proof.
  intros Hpix. destruct p1 as [x1 y1 lon1 lat1], p2 as [x2 y2 lon2 lat2].
  unfold distinct_pixels in Hpix. cbn in Hpix.
  eexists. split; [reflexivity |].
  cbn. real_ops.
  set (dx := x2 - x1). set (dy := y2 - y1).
  set (dxg := lon2 - lon1). set (dyg := lat2 - lat1).
  destruct (polar_form dx dy) as [Hix Hiy].
  destruct (polar_form dxg dyg) as [Hgx Hgy].
  assert (Hri : R_sqrt.sqrt (dx * dx + dy * dy) <> 0).
  { apply length_nonzero. unfold dx, dy. destruct Hpix; [left | right]; lra. }
  pose proof (sin2_cos2 (Ratan2 dy dx)) as Hcs. unfold Rsqr in Hcs.
  rewrite cos_minus, sin_minus.
  destruct (similarity_core Hri Hix Hiy Hgx Hgy Hcs) as [Hlon Hlat].
  set (s := R_sqrt.sqrt (dxg * dxg + dyg * dyg) / R_sqrt.sqrt (dx * dx + dy * dy)) in *.
  set (cr := cos (Ratan2 dyg dxg) * cos (Ratan2 dy dx)
             + sin (Ratan2 dyg dxg) * sin (Ratan2 dy dx)) in *.
  set (sr := sin (Ratan2 dyg dxg) * cos (Ratan2 dy dx)
             - cos (Ratan2 dyg dxg) * sin (Ratan2 dy dx)) in *.
  split; f_equal; f_equal; try ring.
  - transitivity (lon1 + (s * cr * dx - s * sr * dy)); [unfold dx, dy; ring |].
    rewrite Hlon. unfold dxg. ring.
  - transitivity (lat1 + (s * sr * dx + s * cr * dy)); [unfold dx, dy; ring |].
    rewrite Hlat. unfold dyg. ring.
Qed.
End Polar.

(** ** The two affine fitters on three points *)

Section TwoFitters.
Local Open Scope R_scope.

Ltac matrix_ops :=
  unfold Matrix.applyToPoint, Matrix.compose, Matrix.inverse, Matrix.frame;
  cbn [fst snd Matrix.a Matrix.b Matrix.c Matrix.d Matrix.e Matrix.f];
  real_ops.

(** The closed form meets the documented behaviour of [fromTriangles]. *)
Lemma closed_form_contract : fromTriangles_contract Matrix.fromTriangles.
Proof.
  intros [xp yp] [xq yq] [xr yr] [up vp] [uq vq] [ur vr] m Hproper Hm.
  unfold proper_triangle in Hproper. cbn [fst snd] in Hproper.
  cbn [Matrix.fromTriangles] in Hm. injection Hm as <-.
  assert (Hden : (xp - xr) * (yq - yr) - (yp - yr) * (xq - xr) <> 0).
  { intros H. apply Hproper. rewrite <- H. ring. }
  assert (Hden' : - ((xp - xr) * (yq - yr) - (yp - yr) * (xq - xr)) <> 0).
  { intros H. apply Hden. lra. }
  matrix_ops.
  repeat split; f_equal; field; auto.
Qed.

(** The triangle-based fitter on scenario B, with the closed form. *)
Lemma triangle_fit_scenarioB :
  TriangleFit.computeAffineTransform Matrix.fromTriangles (scenarioB (N := R))
  = Ok (Affine.mk 1 0 10 0 1 20).
Proof.
  unfold TriangleFit.computeAffineTransform, scenarioB, point.
  cbn [List.length Nat.ltb Nat.leb firstn map Matrix.fromTriangles
       Ref.imageX Ref.imageY Ref.lon Ref.lat].
  matrix_ops. f_equal. f_equal; field; lra.
Qed.

(** C10 at the code: on the three points of scenario B, any
    [fromTriangles] that behaves as documented makes the triangle-based
    fitter return [a=1, b=0, c=10, d=0, e=1, f=20], while the
    least-squares fitter returns [a=1, b=31, c=-1/3, d=0, e=62,
    f=-1/3]: the two do not agree. *)
Theorem fitters_disagree
  (fromTriangles : list (R * R) -> list (R * R) -> option (Matrix.t R))
  (t : Affine.t R) :
  fromTriangles_contract fromTriangles ->
  TriangleFit.computeAffineTransform fromTriangles scenarioB = Ok t ->
  t = Affine.mk 1 0 10 0 1 20 /\
  computeAffineTransform (N := R) scenarioB
  = Ok (Affine.mk 1 31 (- (1 / 3)) 0 62 (- (1 / 3))).
Proof.
  intros Hspec Hfit. split; [| exact scenarioB_model].
  unfold TriangleFit.computeAffineTransform, scenarioB, point in Hfit.
  cbn [List.length Nat.ltb Nat.leb firstn map
       Ref.imageX Ref.imageY Ref.lon Ref.lat] in Hfit.
  real_ops_in Hfit.
  destruct (fromTriangles _ _) as [[ma mb mc md me mf] |] eqn:Hm; [| discriminate].
  injection Hfit as <-.
  apply Hspec in Hm.
  - destruct Hm as (Hp & Hq & Hr). revert Hp Hq Hr. matrix_ops.
    intros [= Hp1 Hp2] [= Hq1 Hq2] [= Hr1 Hr2].
    f_equal; lra.
  - unfold proper_triangle. cbn [fst snd]. lra.
Qed.
End TwoFitters.

(** ** Division by zero in binary64 *)

Section Binary64Zero.

Ltac float_ops :=
  cbv [num_add num_sub num_mul num_div num_neg num_ltb Math_abs Math_sqrt lit tol
       Binary64].

Lemma sub_self_zero_or_nan (x : spec_float) : zero_or_nan (SF64sub x x).
Proof.
  destruct x as [s | s | | s m e]; try (destruct s; exact I); [exact I |].
  unfold SF64sub, SFsub. cbv zeta. rewrite Z.sub_diag. exact I.
Qed.

Lemma mul_zero_or_nan (x y : spec_float) :
  zero_or_nan x -> zero_or_nan y -> zero_or_nan (SF64mul x y).
Proof. destruct x, y; cbn; tauto. Qed.

Lemma add_zero_or_nan (x y : spec_float) :
  zero_or_nan x -> zero_or_nan y -> zero_or_nan (SF64add x y).
Proof.
  destruct x as [[|] | | |], y as [[|] | | |]; cbn; tauto.
Qed.

Lemma sqrt_zero_or_nan (x : spec_float) :
  zero_or_nan x -> zero_or_nan (SF64sqrt x).
Proof. destruct x; cbn; tauto. Qed.

Lemma div_by_zero_or_nan (x y : spec_float) :
  zero_or_nan y -> not_finite (SF64div x y).
Proof. destruct x, y; cbn; tauto. Qed.

Lemma not_finite_is_finite (x : float) :
  not_finite (Prim2SF x) -> PrimFloat.is_finite x = false.
Proof.
  intros H. unfold PrimFloat.is_finite, PrimFloat.is_nan, PrimFloat.is_infinity.
  rewrite !FloatAxioms.eqb_spec, abs_spec.
  destruct (Prim2SF x) as [s | s | | s m e]; try contradiction.
  - destruct s; reflexivity.
  - reflexivity.
Qed.

Lemma signed_zero_spec (negative : bool) :
  Prim2SF (signed_zero negative) = S754_zero negative.
Proof. destruct negative; reflexivity. Qed.

(** The image distance of two points on one pixel is zero or NaN. *)
Lemma dist_img_coincident (x y : float) :
  zero_or_nan
    (Prim2SF (PrimFloat.sqrt ((x - x) * (x - x) + (y - y) * (y - y)))).
Proof.
  rewrite sqrt_spec, add_spec, !mul_spec, !sub_spec.
  apply sqrt_zero_or_nan.
  apply add_zero_or_nan; apply mul_zero_or_nan; apply sub_self_zero_or_nan.
Qed.

(** A value that is not finite stays so through the products, sums and
    differences of the fitter. *)
Lemma mul_not_finite (x y : spec_float) :
  not_finite x -> not_finite (SF64mul x y).
Proof. destruct x, y; cbn; tauto. Qed.

Lemma sub_not_finite_l (x y : spec_float) :
  not_finite x -> not_finite (SF64sub x y).
Proof. destruct x as [|[|]| |], y as [|[|]| |]; cbn; tauto. Qed.

Lemma sub_not_finite_r (x y : spec_float) :
  not_finite y -> not_finite (SF64sub x y).
Proof. destruct x as [|[|]| |], y as [|[|]| |]; cbn; tauto. Qed.

Lemma add_not_finite_l (x y : spec_float) :
  not_finite x -> not_finite (SF64add x y).
Proof. destruct x as [|[|]| |], y as [|[|]| |]; cbn; tauto. Qed.

(** C6 fails on the code, at every input it speaks of: for two points on
    one pixel the similarity fitter raises no error.  It divides by
    [dist_img], which is zero or NaN, and returns a model whose scale is
    not a finite number; the two translations, computed from the scale,
    are not finite either. *)
Theorem coincident_pixels_fit
  (trig : Trig float) (x y lon1 lat1 lon2 lat2 : float) :
  exists M,
    computeSimilarityTransform [Ref.mk x y lon1 lat1; Ref.mk x y lon2 lat2] = Ok M /\
    PrimFloat.is_finite (Similarity.scale M) = false /\
    PrimFloat.is_finite (Similarity.tx M) = false /\
    PrimFloat.is_finite (Similarity.ty M) = false.
Proof.
  eexists. split; [reflexivity |].
  cbn [Similarity.scale Similarity.tx Similarity.ty
       nth_point nth Ref.imageX Ref.imageY Ref.lon Ref.lat].
  float_ops.
  assert (Hscale : forall g : float,
             not_finite
               (Prim2SF (g / PrimFloat.sqrt ((x - x) * (x - x) + (y - y) * (y - y))))).
  { intros g. rewrite div_spec. apply div_by_zero_or_nan, dist_img_coincident. }
  repeat split; apply not_finite_is_finite.
  - apply Hscale.
  - rewrite sub_spec. apply sub_not_finite_r.
    rewrite sub_spec. apply sub_not_finite_l.
    rewrite !mul_spec. do 2 apply mul_not_finite. apply Hscale.
  - rewrite sub_spec. apply sub_not_finite_r.
    rewrite add_spec. apply add_not_finite_l.
    rewrite !mul_spec. do 2 apply mul_not_finite. apply Hscale.
Qed.

(** C7 fails on the code, at every input it speaks of: for a similarity
    model whose scale is zero (of either sign) [geoToImage] raises no
    error at any geographic input.  It returns the two quotients by the
    scale, and neither is a finite number. *)
Theorem zero_scale_inverse
  (trig : Trig float) (negative : bool) (rotation tx ty lon lat : float) :
  exists p,
    geoToImage lon lat
      (SimilarityT (Similarity.mk (signed_zero negative) rotation tx ty))
      "similarity" = Ok p /\
    PrimFloat.is_finite (Img.imageX p) = false /\
    PrimFloat.is_finite (Img.imageY p) = false.
Proof.
  eexists. split; [reflexivity |].
  cbn [Img.imageX Img.imageY]. float_ops.
  split; apply not_finite_is_finite; rewrite div_spec;
    apply div_by_zero_or_nan; rewrite signed_zero_spec; exact I.
Qed.
End Binary64Zero.

(** ** The statements at concrete inputs *)

Section Instances.
Local Open Scope R_scope.



(** [singular_affine_rejected] on scenario C, at the geographic point
    [(1,1)]. *)
Lemma singular_affine_rejected_witness :
  geoToImage (N := R) 1 1 (AffineT scenarioC) "affine" = Err SingularTransform.
Proof.
  apply singular_affine_rejected.
  unfold scenarioC. cbn [Affine.a Affine.b Affine.d Affine.e]. real_ops.
  apply Rltb_true.
  replace (1 * 4 - 2 * 2) with 0 by lra. rewrite Rabs_R0. lra.
Defined.

(** [fitters_disagree] with the closed form as [fromTriangles]. *)
Lemma fitters_disagree_witness :
  Affine.mk 1 0 10 0 1 20 = Affine.mk 1 0 10 0 1 20 /\
  computeAffineTransform (N := R) scenarioB
  = Ok (Affine.mk 1 31 (- (1 / 3)) 0 62 (- (1 / 3))).
Proof.
  exact (fitters_disagree closed_form_contract triangle_fit_scenarioB).
Defined.

(** C8 fails on the code: on the collinear triple [calculateTransform]
    returns no model; the error of the affine fitter comes through. *)
Lemma collinear_selection_fails :
  calculateTransform (N := R) (Some collinear3) = Err CollinearPoints.
Proof.
  unfold calculateTransform. unfold_fit. guard_value 0. reflexivity.
Qed.
End Instances.

(** ** The code run in binary64 *)

Section Binary64Runs.
Local Open Scope float_scope.

(** Scenario B, as JavaScript computes it: [b = 31], [e = 62]. *)
Example binary64_scenarioB :
  computeAffineTransform (N := float) scenarioB
  = Ok (Affine.mk 1 31 (- (1 / 3)) 0 62 (- (1 / 3))).
Proof. vm_compute. reflexivity. Qed.

(** The triangle-based fitter on scenario B, with the closed form. *)
Example binary64_triangle_scenarioB :
  TriangleFit.computeAffineTransform Matrix.fromTriangles (scenarioB (N := float))
  = Ok (Affine.mk 1 0 10 0 1 20).
Proof. vm_compute. reflexivity. Qed.

(** Scenario C is rejected whatever [Math.cos] and [Math.sin] are. *)
Example binary64_scenarioC (trig : Trig float) (lon lat : float) :
  geoToImage lon lat (AffineT scenarioC) "affine" = Err SingularTransform.
Proof. reflexivity. Qed.

(** Two points on one pixel: the fitted scale is [Infinity], whatever
    [Math.atan2], [Math.cos] and [Math.sin] return. *)
Example binary64_coincident2 (trig : Trig float) :
  exists M,
    computeSimilarityTransform coincident2 = Ok M /\
    Similarity.scale M = infinity.
Proof. eexists. split; reflexivity. Qed.

(** The whole model of that run, from the values JavaScript gives
    [Math.atan2(0, 0)], [Math.atan2(0, 1)], [Math.cos(0)] and
    [Math.sin(0)]: scale [Infinity], rotation [0], translations [NaN]. *)
Example binary64_coincident2_model (trig : Trig float) :
  Math_atan2 0 0 = 0 -> Math_atan2 0 1 = 0 -> Math_cos 0 = 1 -> Math_sin 0 = 0 ->
  computeSimilarityTransform coincident2 = Ok (Similarity.mk infinity 0 nan nan).
Proof.
  intros H00 H01 Hcos Hsin.
  unfold computeSimilarityTransform, coincident2, point.
  cbn [List.length Nat.ltb Nat.leb nth_point nth Ref.imageX Ref.imageY Ref.lon Ref.lat].
  cbv [num_add num_sub num_mul num_div num_neg num_ltb Math_abs Math_sqrt lit tol
       Binary64].
  change (float_of_Z 0) with 0. change (float_of_Z 1) with 1.
  change (0 - 0) with 0. change (1 - 0) with 1.
  rewrite H00, H01. change (0 - 0) with 0. rewrite Hcos, Hsin.
  vm_compute. reflexivity.
Qed.

(** The similarity model of scale [0] at the geographic point [(1,1)]:
    both pixel coordinates are [Infinity]. *)
Example binary64_zero_scale (trig : Trig float) :
  Math_cos 0 = 1 -> Math_sin 0 = 0 ->
  geoToImage 1 1 (SimilarityT (Similarity.mk 0 0 0 0)) "similarity"
  = Ok (Img.mk infinity infinity).
Proof.
  intros Hcos Hsin. cbn. rewrite Hcos, Hsin. vm_compute. reflexivity.
Qed.


(** A similarity model loses pixels too: with the smallest positive
    double as scale, the pixel [(0.25, 0.25)] goes to [(0,0)] and comes
    back as [(0,0)]. *)
Example binary64_subnormal_scale (trig : Trig float) :
  Math_cos 0 = 1 -> Math_sin 0 = 0 ->
  imageToGeo 0.25 0.25 (SimilarityT (Similarity.mk 0x1p-1074 0 0 0)) "similarity"
  = Ok (Geo.mk 0 0) /\
  geoToImage 0 0 (SimilarityT (Similarity.mk 0x1p-1074 0 0 0)) "similarity"
  = Ok (Img.mk 0 0).
Proof.
  intros Hcos Hsin. split; cbn; rewrite Hcos, Hsin; vm_compute; reflexivity.
Qed.

(** Away from singular models the doubles agree with the exact result:
    the offset model of scenario B takes the pixel [(5,5)] to [(15,25)]
    and back. *)
Example binary64_round_trip_offset (trig : Trig float) :
  imageToGeo 5 5 (AffineT (Affine.mk 1 0 10 0 1 20)) "affine" = Ok (Geo.mk 15 25) /\
  geoToImage 15 25 (AffineT (Affine.mk 1 0 10 0 1 20)) "affine" = Ok (Img.mk 5 5).
Proof. split; vm_compute; reflexivity. Qed.
End Binary64Runs.

(** * Further properties of [src/lib/transforms.js] *)

Section FitterFacts.
Context {N : Type} {num : Number N} {trig : Trig N}.
Local Open Scope js_scope.

(** An unknown [type] string makes both evaluators fail with
    ['Unknown transform type'], whatever the transform object is. *)
Theorem unknown_type_rejected (x y : N) (t : Transform N) (type : string) :
  type <> "similarity"%string -> type <> "affine"%string ->
  imageToGeo x y t type = Err UnknownTransformType /\
  geoToImage x y t type = Err UnknownTransformType.
Proof.
  intros Hs Ha. unfold imageToGeo, geoToImage.
  destruct (String.eqb_spec type "similarity"); [contradiction |].
  destruct (String.eqb_spec type "affine"); [contradiction |].
  split; reflexivity.
Qed.

(** What [calculateTransform] returns can always be evaluated: with the
    returned [transform] and [type], [imageToGeo] returns coordinates at
    every pixel, and [geoToImage] either returns coordinates or fails
    with ['Transform is singular']; neither ever meets an unknown type. *)
Theorem fit_is_evaluable
  (referencePoints : option (list (Ref.t N))) (fit : Fit N) (x y lon lat : N) :
  calculateTransform referencePoints = Ok (Some fit) ->
  (exists g, imageToGeo x y (transform fit) (type fit) = Ok g) /\
  ((exists p, geoToImage lon lat (transform fit) (type fit) = Ok p) \/
   geoToImage lon lat (transform fit) (type fit) = Err SingularTransform).
Proof.
  intros Hfit. unfold calculateTransform in Hfit.
  destruct referencePoints as [pts |]; [| discriminate].
  destruct (List.length pts <? 2)%nat; [discriminate |].
  destruct (List.length pts =? 2)%nat.
  - destruct (computeSimilarityTransform pts) as [[s r tx ty] |]; [| discriminate].
    injection Hfit as <-. cbn. split; [| left]; eexists; reflexivity.
  - destruct (computeAffineTransform pts) as [[a b c d e f] |]; [| discriminate].
    injection Hfit as <-. cbn. split; [eexists; reflexivity |].
    destruct (Math_abs (a * e - b * d) <? tol); [right | left; eexists]; reflexivity.
Qed.

(** The only error [calculateTransform] can raise is the collinearity
    error of the affine fitter, and only on three or more points: the
    point-count checks of the two fitters are never reached through it. *)
Theorem selection_errors
  (referencePoints : option (list (Ref.t N))) (e : Error) :
  calculateTransform referencePoints = Err e ->
  e = CollinearPoints /\
  exists pts, referencePoints = Some pts /\ (3 <= List.length pts)%nat.
Proof.
  intros Herr. unfold calculateTransform in Herr.
  destruct referencePoints as [pts |]; [| discriminate].
  destruct (List.length pts <? 2)%nat eqn:H2; [discriminate |].
  apply Nat.ltb_ge in H2.
  destruct (List.length pts =? 2)%nat eqn:E2.
  - unfold computeSimilarityTransform in Herr.
    rewrite (short_list_ltb _ H2) in Herr. discriminate.
  - apply Nat.eqb_neq in E2.
    assert (H3 : (3 <= List.length pts)%nat) by lia.
    unfold computeAffineTransform in Herr.
    rewrite (short_list_ltb _ H3) in Herr. cbv zeta in Herr.
    destruct (Math_abs _ <? tol); [| discriminate].
    injection Herr as <-. split; [reflexivity |].
    exists pts. split; [reflexivity | exact H3].
Qed.
End FitterFacts.

(** ** The affine fitter over the reals *)

Section AffineFitFacts.
Local Open Scope R_scope.

(** Three points are rejected exactly when the squared double area of
    their pixel triangle is below [1e-10]; otherwise a model is returned. *)
Theorem three_points_rejected_iff (p1 p2 p3 : Ref.t R) :
  (computeAffineTransform [p1; p2; p3] = Err CollinearPoints
   <-> Rsqr (pixel_cross p1 p2 p3) < 1 / 10000000000) /\
  ((exists M, computeAffineTransform [p1; p2; p3] = Ok M)
   <-> 1 / 10000000000 <= Rsqr (pixel_cross p1 p2 p3)).
Proof.
  pose proof (normal_det_three p1 p2 p3) as Hdet.
  fold (pixel_cross p1 p2 p3) in Hdet.
  unfold computeAffineTransform. cbn [List.length Nat.ltb Nat.leb]. cbv zeta.
  rewrite Hdet. real_ops.
  rewrite (Rabs_pos_eq _ (Rle_0_sqr _)).
  unfold Rltb. destruct (Rlt_dec (Rsqr (pixel_cross p1 p2 p3)) (1 / 10000000000)).
  - split; split; intros H; try assumption; try reflexivity.
    + destruct H as [M H]. discriminate.
    + lra.
  - split; split; intros H; try discriminate; try lra.
    eexists. reflexivity.
Qed.

(** The sums of the loop, from any starting sums, do not depend on the
    order in which the points come. *)
Lemma accumulate_swap (s : Sums R) (p q : Ref.t R) :
  accumulate (accumulate s p) q = accumulate (accumulate s q) p.
Proof.
  destruct s, p, q. unfold accumulate. cbn. real_ops.
  f_equal; ring.
Qed.

Lemma fold_accumulate_perm (l l' : list (Ref.t R)) :
  Permutation l l' ->
  forall s, fold_left accumulate l s = fold_left accumulate l' s.
Proof.
  induction 1 as [| x l l' _ IH | x y l | l l' l'' _ IH1 _ IH2]; intros s; cbn.
  - reflexivity.
  - apply IH.
  - rewrite accumulate_swap. reflexivity.
  - rewrite IH1. apply IH2.
Qed.

(** Over exact arithmetic the affine fit does not depend on the order of
    the reference points. *)
Theorem affine_fit_order_independent (l l' : list (Ref.t R)) :
  Permutation l l' ->
  computeAffineTransform l = computeAffineTransform l'.
Proof.
  intros Hperm. unfold computeAffineTransform, point_count, affine_sums.
  rewrite (Permutation_length Hperm).
  rewrite (fold_accumulate_perm Hperm). reflexivity.
Qed.

(** The point count as a real number is positive on a nonempty list. *)
Lemma point_count_pos (pts : list (Ref.t R)) :
  (1 <= List.length pts)%nat -> 0 < point_count pts.
Proof.
  intros H. unfold point_count. real_ops.
  apply IZR_lt. lia.
Qed.

Lemma fit_ok_inv (pts : list (Ref.t R)) (M : Affine.t R) :
  computeAffineTransform pts = Ok M ->
  (3 <= List.length pts)%nat /\
  normal_det (point_count pts) (affine_sums pts) <> 0.
Proof.
  intros Hfit. unfold computeAffineTransform in Hfit.
  destruct (List.length pts <? 3)%nat eqn:Hlen; [discriminate |].
  apply Nat.ltb_ge in Hlen. split; [exact Hlen |].
  cbv zeta in Hfit.
  destruct (Math_abs _ <? tol)%js eqn:Hguard; [discriminate |].
  change (Rltb (Rabs (normal_det (point_count pts) (affine_sums pts)))
               (1 / 10000000000) = false) in Hguard.
  intros H0. rewrite H0, Rabs_R0 in Hguard.
  rewrite Rltb_true in Hguard; [discriminate | lra].
Qed.

(** Whenever the affine fit succeeds, the fitted model sends the
    centroid of the pixels to the centroid of the geographic
    coordinates. *)
Theorem affine_fit_centroid (pts : list (Ref.t R)) (M : Affine.t R) :
  computeAffineTransform pts = Ok M ->
  imageToGeo (sum_x (affine_sums pts) / point_count pts)
             (sum_y (affine_sums pts) / point_count pts)
             (AffineT M) "affine"
  = Ok (Geo.mk (sum_lon (affine_sums pts) / point_count pts)
               (sum_lat (affine_sums pts) / point_count pts)).
Proof.
  intros Hfit. destruct (@fit_ok_inv _ _ Hfit) as [Hlen Hdet].
  assert (Hn : 0 < point_count pts) by (apply point_count_pos; lia).
  unfold computeAffineTransform in Hfit.
  rewrite (short_list_ltb _ Hlen) in Hfit. cbv zeta in Hfit.
  revert Hn Hdet Hfit. generalize (point_count pts) (affine_sums pts).
  intros n s Hn Hdet Hfit.
  destruct (Math_abs _ <? tol)%js; [discriminate |].
  injection Hfit as <-.
  unfold normal_det in Hdet. real_ops_in Hdet. cbn. real_ops.
  f_equal. f_equal; field; (split; [lra | exact Hdet]).
Qed.
End AffineFitFacts.

(** ** Reference points that lie exactly on an affine map *)

Section ExactData.
Local Open Scope R_scope.
Variables A B C D E F : R.

(** The sums of points on the map satisfy the normal equations of the
    map's own coefficients. *)
Lemma sums_on_affine_map (pts : list (Ref.t R)) :
  Forall (on_affine_map A B C D E F) pts ->
  forall (s : Sums R) (n : R),
    (sum_lon s = A * sum_x s + B * sum_y s + C * n /\
     sum_x_lon s = A * sum_x2 s + B * sum_xy s + C * sum_x s /\
     sum_y_lon s = A * sum_xy s + B * sum_y2 s + C * sum_y s) /\
    (sum_lat s = D * sum_x s + E * sum_y s + F * n /\
     sum_x_lat s = D * sum_x2 s + E * sum_xy s + F * sum_x s /\
     sum_y_lat s = D * sum_xy s + E * sum_y2 s + F * sum_y s) ->
    let s' := fold_left accumulate pts s in
    let n' := n + INR (List.length pts) in
    (sum_lon s' = A * sum_x s' + B * sum_y s' + C * n' /\
     sum_x_lon s' = A * sum_x2 s' + B * sum_xy s' + C * sum_x s' /\
     sum_y_lon s' = A * sum_xy s' + B * sum_y2 s' + C * sum_y s') /\
    (sum_lat s' = D * sum_x s' + E * sum_y s' + F * n' /\
     sum_x_lat s' = D * sum_x2 s' + E * sum_xy s' + F * sum_x s' /\
     sum_y_lat s' = D * sum_xy s' + E * sum_y2 s' + F * sum_y s').
Proof.
  induction 1 as [| p pts [Hlon Hlat] _ IH]; intros s n Hs.
  - cbn. rewrite Rplus_0_r. exact Hs.
  - cbn [fold_left List.length]. rewrite S_INR.
    replace (n + (INR (List.length pts) + 1)) with ((n + 1) + INR (List.length pts))
      by ring.
    apply IH.
    destruct Hs as [(H1 & H2 & H3) (H4 & H5 & H6)].
    destruct s, p. unfold accumulate. cbn in *. real_ops.
    subst. repeat split; ring.
Qed.

(** When every reference point lies exactly on an affine map and the
    fit succeeds, the fitted [a] and [d] are the map's own. *)
Theorem exact_data_recovers_a_d (pts : list (Ref.t R)) (M : Affine.t R) :
  Forall (on_affine_map A B C D E F) pts ->
  computeAffineTransform pts = Ok M ->
  Affine.a M = A /\ Affine.d M = D.
Proof.
  intros Hon Hfit. destruct (@fit_ok_inv _ _ Hfit) as [Hlen Hdet].
  assert (Hzero : (sum_lon zero_sums = A * sum_x zero_sums + B * sum_y zero_sums + C * 0 /\
                   sum_x_lon zero_sums
                   = A * sum_x2 zero_sums + B * sum_xy zero_sums + C * sum_x zero_sums /\
                   sum_y_lon zero_sums
                   = A * sum_xy zero_sums + B * sum_y2 zero_sums + C * sum_y zero_sums) /\
                  (sum_lat zero_sums = D * sum_x zero_sums + E * sum_y zero_sums + F * 0 /\
                   sum_x_lat zero_sums
                   = D * sum_x2 zero_sums + E * sum_xy zero_sums + F * sum_x zero_sums /\
                   sum_y_lat zero_sums
                   = D * sum_xy zero_sums + E * sum_y2 zero_sums + F * sum_y zero_sums))
    by (cbn; real_ops; repeat split; ring).
  pose proof (@sums_on_affine_map pts Hon zero_sums 0 Hzero) as Hs.
  cbv zeta in Hs. rewrite Rplus_0_l in Hs.
  replace (INR (List.length pts)) with (point_count pts) in Hs
    by (unfold point_count; real_ops; symmetry; apply INR_IZR_INZ).
  fold (affine_sums pts) in Hs.
  destruct Hs as [(H1 & H2 & H3) (H4 & H5 & H6)].
  unfold computeAffineTransform in Hfit.
  rewrite (short_list_ltb _ Hlen) in Hfit. cbv zeta in Hfit.
  revert Hdet H1 H2 H3 H4 H5 H6 Hfit.
  generalize (point_count pts) (affine_sums pts).
  intros n s Hdet H1 H2 H3 H4 H5 H6 Hfit.
  destruct (Math_abs _ <? tol)%js; [discriminate |].
  injection Hfit as <-.
  unfold normal_det in Hdet. real_ops_in Hdet. cbn. real_ops.
  rewrite H1, H2, H3, H4, H5, H6.
  split; field; exact Hdet.
Qed.
End ExactData.

(** ** The evaluators over the reals *)

Section EvaluatorFacts.
Local Open Scope R_scope.

(** The round trip in the other direction, over exact arithmetic: where
    the inverse of a model is defined, [imageToGeo] undoes [geoToImage]
    at every geographic point.  In binary64 the point comes back only up
    to rounding: see [binary64_round_trip_geo_lost]. *)
Theorem round_trip_geo (M : Transform R) (type : string) (lon lat : R) :
  inverse_defined M type ->
  exists p,
    geoToImage lon lat M type = Ok p /\
    imageToGeo (Img.imageX p) (Img.imageY p) M type = Ok (Geo.mk lon lat).
Proof.
  destruct M as [[s r tx ty] | [a b c d e f]]; cbn [inverse_defined];
    intros [-> Hdef].
  - cbn [Similarity.scale] in Hdef.
    eexists. split; [reflexivity |].
    cbn. real_ops. f_equal.
    pose proof (sin2_cos2 r) as Hcs. unfold Rsqr in Hcs.
    f_equal.
    + transitivity ((sin r * sin r + cos r * cos r) * (lon - tx) + tx);
        [field; exact Hdef | rewrite Hcs; ring].
    + transitivity ((sin r * sin r + cos r * cos r) * (lat - ty) + ty);
        [field; exact Hdef | rewrite Hcs; ring].
  - cbn [Affine.a Affine.b Affine.d Affine.e] in Hdef.
    cbn. real_ops. rewrite (Rltb_false Hdef).
    apply guard_nonzero in Hdef.
    eexists. split; [reflexivity |].
    cbn. f_equal. f_equal; field; exact Hdef.
Qed.



End EvaluatorFacts.

(** ** A determinant that is not a number *)

Section Binary64NaN.

Ltac float_ops :=
  cbv [num_add num_sub num_mul num_div num_neg num_ltb Math_abs Math_sqrt lit tol
       Binary64].

Lemma div_nan_r (x y : float) :
  Prim2SF y = S754_nan -> Prim2SF (x / y) = S754_nan.
Proof. intros H. rewrite div_spec, H. destruct (Prim2SF x); reflexivity. Qed.

Lemma div_nan_l (x y : float) :
  Prim2SF x = S754_nan -> Prim2SF (x / y) = S754_nan.
Proof. intros H. rewrite div_spec, H. reflexivity. Qed.

Lemma mul_nan_l (x y : float) :
  Prim2SF x = S754_nan -> Prim2SF (x * y) = S754_nan.
Proof. intros H. rewrite mul_spec, H. reflexivity. Qed.

Lemma sub_nan_l (x y : float) :
  Prim2SF x = S754_nan -> Prim2SF (x - y) = S754_nan.
Proof. intros H. rewrite sub_spec, H. reflexivity. Qed.

Lemma sub_nan_r (x y : float) :
  Prim2SF y = S754_nan -> Prim2SF (x - y) = S754_nan.
Proof. intros H. rewrite sub_spec, H. destruct (Prim2SF x); reflexivity. Qed.

Lemma nan_is_nan (x : float) :
  Prim2SF x = S754_nan -> PrimFloat.is_nan x = true.
Proof.
  intros H. unfold PrimFloat.is_nan. rewrite FloatAxioms.eqb_spec, H. reflexivity.
Qed.

Lemma nan_passes_guard (x y : float) :
  Prim2SF x = S754_nan -> PrimFloat.ltb (PrimFloat.abs x) y = false.
Proof.
  intros H. rewrite ltb_spec, abs_spec, H. reflexivity.
Qed.

(** The collinearity guard does not catch a determinant that is NaN (as
    when a coordinate is infinite or NaN): the fitter raises no error and
    returns a model whose six coefficients are all NaN. *)
Theorem nan_determinant_not_caught (pts : list (Ref.t float)) :
  (3 <= List.length pts)%nat ->
  Prim2SF (normal_det (point_count pts) (affine_sums pts)) = S754_nan ->
  exists M,
    computeAffineTransform pts = Ok M /\
    PrimFloat.is_nan (Affine.a M) = true /\ PrimFloat.is_nan (Affine.b M) = true /\
    PrimFloat.is_nan (Affine.c M) = true /\ PrimFloat.is_nan (Affine.d M) = true /\
    PrimFloat.is_nan (Affine.e M) = true /\ PrimFloat.is_nan (Affine.f M) = true.
Proof.
  intros Hlen Hnan. unfold computeAffineTransform.
  rewrite (short_list_ltb _ Hlen). cbv zeta.
  revert Hnan. generalize (point_count pts) (affine_sums pts). intros n s Hnan.
  replace (Math_abs (normal_det n s) <? tol)%js with false
    by (symmetry; apply nan_passes_guard; exact Hnan).
  eexists. split; [reflexivity |].
  cbn [Affine.a Affine.b Affine.c Affine.d Affine.e Affine.f]. float_ops.
  repeat split; apply nan_is_nan;
    first [ apply div_nan_r; exact Hnan
          | apply div_nan_l, sub_nan_l, sub_nan_r, mul_nan_l, div_nan_r; exact Hnan ].
Qed.
End Binary64NaN.

(** * The map viewer *)

Section ViewerPicking.
Context {N : Type} {num : Number N} {trig : Trig N} {ord : Order N} {hyp : Hypot N}.
Local Open Scope js_scope.

Lemma hit_from_step (st : Viewer.State N) (sx sy : N) (p : Ref.t N)
  (rest : list (Ref.t N)) (i : nat) :
  Viewer.hit_from st sx sy (p :: rest) i
  = if Viewer.within_click st sx sy p then Z.of_nat i
    else Viewer.hit_from st sx sy rest (S i).
Proof.
  cbn [Viewer.hit_from]. unfold Viewer.within_click.
  destruct (Viewer.screenPoint st p) as [px py]. reflexivity.
Qed.

(** The loop returns the first index at or after [i] whose point is hit,
    and [-1] when none is. *)
Lemma hit_from_spec (st : Viewer.State N) (sx sy : N) (points : list (Ref.t N)) :
  forall i,
    (Viewer.hit_from st sx sy points i = (-1)%Z /\
     Forall (fun p => Viewer.within_click st sx sy p = false) points) \/
    (exists k p,
        Viewer.hit_from st sx sy points i = Z.of_nat (i + k) /\
        nth_error points k = Some p /\
        Viewer.within_click st sx sy p = true /\
        Forall (fun q => Viewer.within_click st sx sy q = false) (firstn k points)).
Proof.
  induction points as [| p rest IH]; intros i.
  - left. split; [reflexivity | constructor].
  - rewrite hit_from_step.
    destruct (Viewer.within_click st sx sy p) eqn:Hp.
    + right. exists 0%nat, p. rewrite Nat.add_0_r.
      repeat split; try reflexivity; [exact Hp | constructor].
    + destruct (IH (S i)) as [[Hr Hall] | (k & q & Hr & Hnth & Hq & Hbefore)].
      * left. split; [exact Hr | constructor; assumption].
      * right. exists (S k), q.
        replace (i + S k)%nat with (S i + k)%nat by lia.
        repeat split; try assumption.
        cbn [firstn]. constructor; assumption.
Qed.

(** [getPointAtScreen] returns [-1] when the points are hidden or no
    shown point lies within 20 pixels of the screen position; otherwise
    it returns the index of the first reference point that does, and
    every point before it is farther away. *)
Theorem getPointAtScreen_first_hit (st : Viewer.State N) (sx sy : N) :
  (Viewer.getPointAtScreen st sx sy = (-1)%Z /\
   (Viewer.showingPoints st = false \/
    Forall (fun p => Viewer.within_click st sx sy p = false)
           (Viewer.referencePoints st))) \/
  (Viewer.showingPoints st = true /\
   exists k p,
     Viewer.getPointAtScreen st sx sy = Z.of_nat k /\
     nth_error (Viewer.referencePoints st) k = Some p /\
     Viewer.within_click st sx sy p = true /\
     Forall (fun q => Viewer.within_click st sx sy q = false)
            (firstn k (Viewer.referencePoints st))).
Proof.
  unfold Viewer.getPointAtScreen.
  destruct (Viewer.showingPoints st); cbn [negb].
  - destruct (hit_from_spec st sx sy (Viewer.referencePoints st) 0)
      as [[Hr Hall] | (k & p & Hr & Hrest)].
    + left. split; [exact Hr | right; exact Hall].
    + right. split; [reflexivity |]. exists k, p. split; [exact Hr | exact Hrest].
  - left. split; [reflexivity | left; reflexivity].
Qed.
End ViewerPicking.

Section ViewerGeometry.
Local Open Scope R_scope.

Ltac view_ops :=
  cbv [num_leb num_falsy Math_min Math_max Math_hypot RealOrder RealHypot
       Viewer.lit_0_9 Viewer.lit_1_1 Viewer.lit_0_1]; real_ops.

Lemma Rleb_true (x y : R) : x <= y -> Rleb x y = true.
Proof. intros H. unfold Rleb. destruct (Rle_dec x y); [reflexivity | contradiction]. Qed.

Lemma Rleb_le (x y : R) : Rleb x y = true -> x <= y.
Proof. unfold Rleb. destruct (Rle_dec x y); [trivial | discriminate]. Qed.

Lemma falsy_nonzero (x : R) : x <> 0 -> (if Req_dec_T x 0 then true else false) = false.
Proof. intros H. destruct (Req_dec_T x 0); [contradiction | reflexivity]. Qed.

(** Rotating back by [-r] and dividing by the scale undoes the scaling
    and the rotation by [r]. *)
Lemma unrotate_x (s c sn ox oy tx ty w : R) :
  sn * sn + c * c = 1 -> s <> 0 ->
  (c * (c * (ox * s) - sn * (oy * s) + tx - tx)
   - - sn * (sn * (ox * s) + c * (oy * s) + ty - ty)) / s + w = ox + w.
Proof.
  intros Hcs Hs.
  transitivity ((sn * sn + c * c) * ox + w); [field; exact Hs | rewrite Hcs; ring].
Qed.

Lemma unrotate_y (s c sn ox oy tx ty h : R) :
  sn * sn + c * c = 1 -> s <> 0 ->
  (- sn * (c * (ox * s) - sn * (oy * s) + tx - tx)
   + c * (sn * (ox * s) + c * (oy * s) + ty - ty)) / s + h = oy + h.
Proof.
  intros Hcs Hs.
  transitivity ((sn * sn + c * c) * oy + h); [field; exact Hs | rewrite Hcs; ring].
Qed.

(** [screenToImage] undoes the placement of a pixel on the canvas: for a
    view with nonzero scale and an image of nonzero size, the screen
    position of any pixel inside the image is taken back to that pixel. *)
Theorem screen_round_trip (st : Viewer.State R) (point : Ref.t R) :
  Viewer.scale (Viewer.transform st) <> 0 ->
  Viewer.imageWidth st <> 0 -> Viewer.imageHeight st <> 0 ->
  0 <= Ref.imageX point <= Viewer.imageWidth st ->
  0 <= Ref.imageY point <= Viewer.imageHeight st ->
  Viewer.screenToImage st (fst (Viewer.screenPoint st point))
                          (snd (Viewer.screenPoint st point))
  = Some (Ref.imageX point, Ref.imageY point).
Proof.
  destruct st as [[s tx ty r] w h cw ch sp pts], point as [x y lon lat].
  cbn [Viewer.scale Viewer.transform Viewer.imageWidth Viewer.imageHeight
       Ref.imageX Ref.imageY].
  intros Hs Hw Hh Hx Hy.
  unfold Viewer.screenToImage, Viewer.screenPoint.
  cbn [Viewer.scale Viewer.transform Viewer.imageWidth Viewer.imageHeight
       Viewer.translateX Viewer.translateY Viewer.rotation
       Ref.imageX Ref.imageY fst snd].
  view_ops.
  rewrite (falsy_nonzero Hw), (falsy_nonzero Hh). cbn [orb].
  rewrite cos_neg, sin_neg.
  pose proof (sin2_cos2 r) as Hcs. unfold Rsqr in Hcs.
  rewrite (unrotate_x _ _ _ _ (w / 2) Hcs Hs).
  rewrite (unrotate_y _ _ _ _ (h / 2) Hcs Hs).
  replace (x - w / 2 + w / 2) with x by field.
  replace (y - h / 2 + h / 2) with y by field.
  rewrite !Rleb_true by lra. reflexivity.
Qed.

(** Whatever [screenToImage] returns lies inside the image, and it
    returns nothing while the image has no size. *)
Theorem screenToImage_in_bounds (st : Viewer.State R) (sx sy : R) :
  (forall x y,
      Viewer.screenToImage st sx sy = Some (x, y) ->
      0 <= x <= Viewer.imageWidth st /\ 0 <= y <= Viewer.imageHeight st) /\
  (Viewer.imageWidth st = 0 \/ Viewer.imageHeight st = 0 ->
   Viewer.screenToImage st sx sy = None).
Proof.
  unfold Viewer.screenToImage. split.
  - intros x y.
    destruct (num_falsy _ || num_falsy _)%bool; [discriminate |].
    cbv zeta.
    destruct (_ && _)%bool eqn:Hin; [| discriminate].
    intros [= <- <-].
    apply andb_prop in Hin. destruct Hin as [Hin H4].
    apply andb_prop in Hin. destruct Hin as [Hin H3].
    apply andb_prop in Hin. destruct Hin as [H1 H2].
    repeat split; apply Rleb_le; assumption.
  - intros H. view_ops.
    destruct H as [-> | ->].
    + destruct (Req_dec_T 0 0); [reflexivity | contradiction].
    + destruct (Req_dec_T 0 0); [| contradiction].
      rewrite orb_true_r. reflexivity.
Qed.
End ViewerGeometry.

Section ViewerZoom.
Local Open Scope R_scope.

Ltac view_ops :=
  cbv [num_leb num_falsy Math_min Math_max Math_hypot RealOrder RealHypot
       Viewer.lit_0_9 Viewer.lit_1_1 Viewer.lit_0_1]; real_ops.

Ltac view_fields :=
  cbn [Viewer.scale Viewer.transform Viewer.imageWidth Viewer.imageHeight
       Viewer.canvasWidth Viewer.canvasHeight
       Viewer.translateX Viewer.translateY Viewer.rotation Viewer.set_transform
       Ref.imageX Ref.imageY fst snd].

(** After [fitImageToCanvas] an unrotated view shows the whole image
    with a margin: every pixel of the image is placed on the canvas at
    least 5% of the canvas size away from each edge. *)
Theorem fit_shows_whole_image (st : Viewer.State R) (point : Ref.t R) :
  0 < Viewer.imageWidth st -> 0 < Viewer.imageHeight st ->
  0 <= Viewer.canvasWidth st -> 0 <= Viewer.canvasHeight st ->
  Viewer.rotation (Viewer.transform st) = 0 ->
  0 <= Ref.imageX point <= Viewer.imageWidth st ->
  0 <= Ref.imageY point <= Viewer.imageHeight st ->
  let shown := Viewer.screenPoint (Viewer.fitImageToCanvas st) point in
  Viewer.canvasWidth st / 20 <= fst shown <= 19 * Viewer.canvasWidth st / 20 /\
  Viewer.canvasHeight st / 20 <= snd shown <= 19 * Viewer.canvasHeight st / 20.
Proof.
  destruct st as [[s tx ty r] w h cw ch sp pts], point as [x y lon lat].
  view_fields. intros Hw Hh Hcw Hch -> Hx Hy.
  unfold Viewer.screenPoint, Viewer.fitImageToCanvas. view_fields. view_ops.
  rewrite cos_0, sin_0.
  set (m := Rmin (cw / w) (ch / h)).
  assert (Hmw : m * w <= cw).
  { apply Rle_trans with (cw / w * w); [| right; field; lra].
    apply Rmult_le_compat_r; [lra | apply Rmin_l]. }
  assert (Hmh : m * h <= ch).
  { apply Rle_trans with (ch / h * h); [| right; field; lra].
    apply Rmult_le_compat_r; [lra | apply Rmin_r]. }
  assert (Hm : 0 <= m).
  { apply Rmin_glb; apply Rmult_le_pos; try lra;
      left; apply Rinv_0_lt_compat; lra. }
  repeat split; nra.
Qed.

(** The wheel and the pinch keep the zoom between [0.1] and [10],
    whatever it was before, and the wheel moves nothing else. *)
Theorem zoom_stays_in_range
  (st : Viewer.State R) (deltaY : R) (touch1 touch2 : R * R)
  (lastTouchDistance : R) (touchStartTransform : Viewer.ViewTransform R) :
  let wheeled := Viewer.transform (Viewer.handleWheel deltaY st) in
  let pinched :=
    Viewer.transform
      (Viewer.pinch touch1 touch2 lastTouchDistance touchStartTransform st) in
  1 / 10 <= Viewer.scale wheeled <= 10 /\
  1 / 10 <= Viewer.scale pinched <= 10 /\
  Viewer.translateX wheeled = Viewer.translateX (Viewer.transform st) /\
  Viewer.translateY wheeled = Viewer.translateY (Viewer.transform st) /\
  Viewer.rotation wheeled = Viewer.rotation (Viewer.transform st).
Proof.
  assert (Hclamp : forall v, 1 / 10 <= Rmax (1 / 10) (Rmin 10 v) <= 10).
  { intros v. split; [apply Rmax_l |].
    apply Rmax_lub; [lra | apply Rmin_l]. }
  unfold Viewer.handleWheel, Viewer.pinch. view_fields. view_ops.
  repeat split; try apply Hclamp; reflexivity.
Qed.

(** The pinch zooms about the point between the two fingers: the pixel
    that the view recorded at the start of the gesture showed at that
    point is still shown there afterwards. *)
Theorem pinch_keeps_center
  (st : Viewer.State R) (touch1 touch2 : R * R) (lastTouchDistance : R)
  (touchStartTransform : Viewer.ViewTransform R) (point : Ref.t R) :
  let center := ((fst touch1 + fst touch2) / 2, (snd touch1 + snd touch2) / 2) in
  Viewer.scale touchStartTransform <> 0 ->
  Viewer.rotation (Viewer.transform st) = Viewer.rotation touchStartTransform ->
  Viewer.screenPoint (Viewer.set_transform st touchStartTransform) point = center ->
  Viewer.screenPoint
    (Viewer.pinch touch1 touch2 lastTouchDistance touchStartTransform st) point
  = center.
Proof.
  destruct st as [[s tx ty r] w h cw ch sp pts], point as [x y lon lat].
  destruct touchStartTransform as [s0 tx0 ty0 r0].
  destruct touch1 as [x1 y1], touch2 as [x2 y2].
  cbv zeta. view_fields. intros Hs0 ->.
  unfold Viewer.screenPoint, Viewer.pinch. view_fields. view_ops.
  set (k := Rmax (1 / 10)
                 (Rmin 10 (s0 * (R_sqrt.sqrt ((x2 - x1) * (x2 - x1) + (y2 - y1) * (y2 - y1))
                                 / lastTouchDistance)))).
  intros [= Hx Hy].
  f_equal.
  - transitivity ((x1 + x2) / 2
                  + (k / s0) * (cos r0 * ((x - w / 2) * s0) - sin r0 * ((y - h / 2) * s0)
                                + tx0 - (x1 + x2) / 2));
      [field; exact Hs0 | rewrite Hx; ring].
  - transitivity ((y1 + y2) / 2
                  + (k / s0) * (sin r0 * ((x - w / 2) * s0) + cos r0 * ((y - h / 2) * s0)
                                + ty0 - (y1 + y2) / 2));
      [field; exact Hs0 | rewrite Hy; ring].
Qed.
End ViewerZoom.

(** * The module [src/lib/db.js] *)

Section Database.
Context {Blob N : Type}.
Local Open Scope Z_scope.
Implicit Types (db : DB.Store Blob N) (p : DB.PointRecord N) (m : DB.MapRecord Blob).

Lemma find_filter_other (A : Type) (key : A -> Z) (k k' : Z) (l : list A) :
  k' <> k ->
  find (fun x => key x =? k') (filter (fun x => negb (key x =? k)) l)
  = find (fun x => key x =? k') l.
Proof.
  intros Hk. induction l as [| x l IH]; [reflexivity |].
  cbn. destruct (Z.eqb_spec (key x) k) as [Hx | Hx]; cbn.
  - destruct (Z.eqb_spec (key x) k'); [congruence | exact IH].
  - destruct (key x =? k'); [reflexivity | exact IH].
Qed.

Lemma find_filter_same (A : Type) (key : A -> Z) (k : Z) (l : list A) :
  find (fun x => key x =? k) (filter (fun x => negb (key x =? k)) l) = None.
Proof.
  induction l as [| x l IH]; [reflexivity |].
  cbn. destruct (key x =? k) eqn:Hx; cbn; [exact IH |].
  rewrite Hx. exact IH.
Qed.

Lemma filter_filter_other (A : Type) (key : A -> Z) (k k' : Z) (l : list A) :
  k' <> k ->
  filter (fun x => key x =? k') (filter (fun x => negb (key x =? k)) l)
  = filter (fun x => key x =? k') l.
Proof.
  intros Hk. induction l as [| x l IH]; [reflexivity |].
  cbn. destruct (Z.eqb_spec (key x) k) as [Hx | Hx]; cbn.
  - destruct (Z.eqb_spec (key x) k'); [congruence | exact IH].
  - destruct (key x =? k'); [f_equal |]; exact IH.
Qed.

Lemma filter_filter_same (A : Type) (key : A -> Z) (k : Z) (l : list A) :
  filter (fun x => key x =? k) (filter (fun x => negb (key x =? k)) l) = [].
Proof.
  induction l as [| x l IH]; [reflexivity |].
  cbn. destruct (key x =? k) eqn:Hx; cbn; [exact IH |].
  rewrite Hx. exact IH.
Qed.

(** [deleteMap] removes the map together with all of its reference
    points, and leaves every other map and its points as they were. *)
Theorem deleteMap_cascades (mapId : Z) db :
  DB.getMap mapId (DB.deleteMap mapId db) = None /\
  DB.getReferencePoints mapId (DB.deleteMap mapId db) = [] /\
  forall other, other <> mapId ->
    DB.getMap other (DB.deleteMap mapId db) = DB.getMap other db /\
    DB.getReferencePoints other (DB.deleteMap mapId db)
    = DB.getReferencePoints other db.
Proof.
  unfold DB.getMap, DB.getReferencePoints, DB.deleteMap. cbn [DB.maps DB.points].
  split; [apply find_filter_same |].
  split; [apply filter_filter_same |].
  intros other Hother.
  split; [apply find_filter_other | apply filter_filter_other]; exact Hother.
Qed.

(** [deleteReferencePoint] removes the point with that key from the list
    of every map and nothing else; a key that is not in the store is
    accepted and leaves the lists as they were. *)
Theorem deleteReferencePoint_removes_one (pointId mapId : Z) db :
  DB.getReferencePoints mapId (DB.deleteReferencePoint pointId db)
  = filter (fun p => negb (DB.id p =? pointId)) (DB.getReferencePoints mapId db) /\
  DB.getAllMaps (DB.deleteReferencePoint pointId db) = DB.getAllMaps db /\
  ((forall p, In p (DB.points db) -> DB.id p <> pointId) ->
   DB.deleteReferencePoint pointId db = db).
Proof.
  unfold DB.getReferencePoints, DB.deleteReferencePoint, DB.getAllMaps.
  cbn [DB.maps DB.points].
  split; [| split; [reflexivity |]].
  - induction (DB.points db) as [| p l IH]; [reflexivity |].
    cbn. destruct (DB.id p =? pointId) eqn:Hid, (DB.mapId p =? mapId) eqn:Hmap;
      cbn; rewrite ?Hid, ?Hmap; cbn; rewrite ?IH; reflexivity.
  - intros Habsent. destruct db as [ms mk ps pk]. cbn in *. f_equal.
    induction ps as [| p l IH]; [reflexivity |].
    cbn. destruct (Z.eqb_spec (DB.id p) pointId) as [Hp | Hp].
    + exfalso. apply (Habsent p); [left; reflexivity | exact Hp].
    + cbn. f_equal. apply IH. intros q Hq. apply Habsent. right. exact Hq.
Qed.

(** [updateReferencePoint] on a key that is not in the store rejects
    with ['Point not found'] and leaves the database unchanged. *)
Theorem update_missing_point (pointId : Z) (updates : DB.Updates N) db :
  (forall p, In p (DB.points db) -> DB.id p <> pointId) ->
  DB.updateReferencePoint pointId updates db = (inl DB.PointNotFound, db) /\
  DB.rejection_message DB.PointNotFound = "Point not found"%string.
Proof.
  intros Habsent. split; [| reflexivity].
  unfold DB.updateReferencePoint.
  destruct (find _ (DB.points db)) as [p |] eqn:Hfind; [| reflexivity].
  apply find_some in Hfind. destruct Hfind as [Hin Hid].
  apply Z.eqb_eq in Hid. exfalso. exact (Habsent p Hin Hid).
Qed.
End Database.

Section DatabaseKeys.
Context {Blob N : Type}.
Local Open Scope Z_scope.
Implicit Types (db : DB.Store Blob N) (p : DB.PointRecord N).

Lemma keys_ok_snoc (keys : list Z) (last : Z) :
  DB.keys_ok keys last -> 0 <= last -> DB.keys_ok (keys ++ [last + 1]) (last + 1).
Proof.
  intros [Hsorted Hrange] Hlast. split.
  - induction keys as [| k keys IH]; cbn.
    + constructor; constructor.
    + apply StronglySorted_inv in Hsorted. destruct Hsorted as [Hs Hk].
      apply Forall_cons_iff in Hrange. destruct Hrange as [Hk0 Hr].
      constructor; [apply IH; assumption |].
      apply Forall_app. split; [exact Hk |].
      constructor; [lia | constructor].
  - apply Forall_app. split.
    + eapply Forall_impl; [| exact Hrange]. cbn. intros k Hk. lia.
    + constructor; [lia | constructor].
Qed.

Lemma keys_ok_filter (A : Type) (key : A -> Z) (f : A -> bool) (l : list A) (last : Z) :
  DB.keys_ok (map key l) last -> DB.keys_ok (map key (filter f l)) last.
Proof.
  intros [Hsorted Hrange]. split.
  - induction l as [| x l IH]; cbn; [constructor |].
    cbn in Hsorted, Hrange.
    apply StronglySorted_inv in Hsorted. destruct Hsorted as [Hs Hx].
    apply Forall_cons_iff in Hrange. destruct Hrange as [_ Hr].
    destruct (f x); cbn; [| apply IH; assumption].
    constructor; [apply IH; assumption |].
    rewrite Forall_forall in Hx |- *. intros k Hk. apply Hx.
    rewrite in_map_iff in Hk |- *. destruct Hk as (y & <- & Hy).
    exists y. split; [reflexivity |]. apply filter_In in Hy. tauto.
  - rewrite Forall_forall in Hrange |- *. intros k Hk. apply Hrange.
    rewrite in_map_iff in Hk |- *. destruct Hk as (y & <- & Hy).
    exists y. split; [reflexivity |]. apply filter_In in Hy. tauto.
Qed.

(** A key denotes at most one record of a store with ascending keys. *)
Lemma key_determines_record (A : Type) (key : A -> Z) (l : list A) (x y : A) :
  StronglySorted Z.lt (map key l) -> In x l -> In y l -> key x = key y -> x = y.
Proof.
  induction l as [| z l IH]; intros Hsorted Hx Hy Hkey; [contradiction |].
  cbn in Hsorted. apply StronglySorted_inv in Hsorted. destruct Hsorted as [Hs Hz].
  rewrite Forall_forall in Hz.
  destruct Hx as [-> | Hx], Hy as [-> | Hy].
  - reflexivity.
  - exfalso. specialize (Hz (key y) (in_map key l y Hy)). lia.
  - exfalso. specialize (Hz (key x) (in_map key l x Hx)). lia.
  - apply IH; assumption.
Qed.

Lemma update_keeps_keys (pointId : Z) (point : DB.PointRecord N)
  (updates : DB.Updates N) (l : list (DB.PointRecord N)) :
  DB.id point = pointId ->
  map (@DB.id N)
      (map (fun p => if DB.id p =? pointId then DB.merge point updates else p) l)
  = map (@DB.id N) l.
Proof.
  intros Hid. induction l as [| p l IH]; [reflexivity |].
  cbn [map]. rewrite IH. f_equal.
  destruct (Z.eqb_spec (DB.id p) pointId) as [Hp | Hp]; [| reflexivity].
  cbn. congruence.
Qed.

Lemma run_well_formed (c : DB.Call) db :
  0 <= DB.maps_key db -> 0 <= DB.points_key db ->
  DB.well_formed db ->
  0 <= DB.maps_key (DB.run c db) /\ 0 <= DB.points_key (DB.run c db) /\
  DB.well_formed (DB.run c db).
Proof.
  intros Hmk Hpk [Hmaps Hpoints]. unfold DB.well_formed.
  destruct c as [mapData now | mapId | pointData now | pointId updates | pointId];
    cbn [DB.run DB.addMap DB.deleteMap DB.addReferencePoint DB.deleteReferencePoint
         snd DB.maps DB.points DB.maps_key DB.points_key].
  - split; [lia |]. split; [exact Hpk |]. split; [| exact Hpoints].
    rewrite map_app. apply keys_ok_snoc; assumption.
  - split; [exact Hmk |]. split; [exact Hpk |].
    split; apply keys_ok_filter; assumption.
  - split; [exact Hmk |]. split; [lia |]. split; [exact Hmaps |].
    rewrite map_app. apply keys_ok_snoc; assumption.
  - unfold DB.updateReferencePoint.
    destruct (find _ (DB.points db)) as [point |] eqn:Hfind;
      cbn [snd DB.maps DB.points DB.maps_key DB.points_key].
    + apply find_some in Hfind. destruct Hfind as [_ Hid]. apply Z.eqb_eq in Hid.
      split; [exact Hmk |]. split; [exact Hpk |]. split; [exact Hmaps |].
      rewrite (@update_keeps_keys pointId point updates _ Hid). exact Hpoints.
    + split; [exact Hmk |]. split; [exact Hpk |]. split; assumption.
  - split; [exact Hmk |]. split; [exact Hpk |]. split; [exact Hmaps |].
    apply keys_ok_filter; assumption.
Qed.

(** Whatever calls of the module a database has gone through since it
    was created, the keys of its maps and of its reference points are
    distinct, ascending in the order the stores list them, and never
    above the last key handed out. *)
Theorem store_keys_invariant (calls : list DB.Call) :
  DB.well_formed (fold_left (fun db c => DB.run c db) calls (@DB.empty Blob N)).
Proof.
  assert (Hgen : forall calls db,
             0 <= DB.maps_key db -> 0 <= DB.points_key db -> DB.well_formed db ->
             DB.well_formed (fold_left (fun db c => DB.run c db) calls db)).
  { clear calls. induction calls as [| c calls IH]; intros db Hmk Hpk Hwf; [exact Hwf |].
    cbn [fold_left].
    destruct (run_well_formed c Hmk Hpk Hwf) as (Hmk' & Hpk' & Hwf').
    apply IH; assumption. }
  apply Hgen; cbn; try lia.
  split; split; constructor.
Qed.
End DatabaseKeys.

Section DatabaseCalls.
Context {Blob N : Type}.
Local Open Scope Z_scope.
Implicit Types (db : DB.Store Blob N) (p : DB.PointRecord N).

Lemma find_app_either (A : Type) (f : A -> bool) (l l' : list A) :
  find f (l ++ l') = match find f l with Some x => Some x | None => find f l' end.
Proof.
  induction l as [| x l IH]; [reflexivity |].
  cbn. destruct (f x); [reflexivity | exact IH].
Qed.

(** [addReferencePoint] hands out a key that no stored point has, puts
    the new point last in the list of its map, and leaves the lists of
    the other maps as they were. *)
Theorem added_point_is_listed_last (pointData : DB.PointData N) (now : Z) db :
  DB.well_formed db ->
  let key := fst (DB.addReferencePoint pointData now db) in
  let db' := snd (DB.addReferencePoint pointData now db) in
  (forall p, In p (DB.points db) -> DB.id p < key) /\
  DB.getReferencePoints (DB.data_mapId pointData) db'
  = DB.getReferencePoints (DB.data_mapId pointData) db
    ++ [DB.mkPoint key (DB.data_mapId pointData)
                   (DB.data_imageX pointData) (DB.data_imageY pointData)
                   (DB.data_lon pointData) (DB.data_lat pointData) now] /\
  forall other, other <> DB.data_mapId pointData ->
    DB.getReferencePoints other db' = DB.getReferencePoints other db.
Proof.
  intros [_ [_ Hrange]]. cbv zeta.
  unfold DB.addReferencePoint, DB.getReferencePoints. cbn [fst snd DB.points].
  split; [| split].
  - intros p Hp. rewrite Forall_forall in Hrange.
    specialize (Hrange (DB.id p) (in_map (@DB.id N) _ p Hp)). lia.
  - rewrite filter_app. cbn. rewrite Z.eqb_refl. reflexivity.
  - intros other Hother. rewrite filter_app. cbn.
    destruct (Z.eqb_spec (DB.data_mapId pointData) other); [congruence |].
    apply app_nil_r.
Qed.

(** [updateReferencePoint] on a stored point resolves to that point with
    the given coordinates written over its own; in the list of every map
    exactly that point is replaced, and its key, its map and its
    timestamp stay. *)
Theorem update_replaces_one_point
  (point : DB.PointRecord N) (updates : DB.Updates N) db :
  DB.well_formed db ->
  In point (DB.points db) ->
  let updated := DB.merge point updates in
  let db' := snd (DB.updateReferencePoint (DB.id point) updates db) in
  fst (DB.updateReferencePoint (DB.id point) updates db) = inr updated /\
  (DB.id updated = DB.id point /\ DB.mapId updated = DB.mapId point /\
   DB.timestamp updated = DB.timestamp point) /\
  (forall mapId,
      DB.getReferencePoints mapId db'
      = map (fun p => if DB.id p =? DB.id point then updated else p)
            (DB.getReferencePoints mapId db)) /\
  DB.getAllMaps db' = DB.getAllMaps db.
Proof.
  intros [_ [Hsorted _]] Hin. cbv zeta.
  assert (Hunique : forall p, In p (DB.points db) -> DB.id p = DB.id point -> p = point).
  { intros p Hp Hid. exact (key_determines_record (@DB.id N) _ p point Hsorted Hp Hin Hid). }
  unfold DB.updateReferencePoint.
  destruct (find _ (DB.points db)) as [found |] eqn:Hfind.
  - apply find_some in Hfind. destruct Hfind as [Hfin Hfid]. apply Z.eqb_eq in Hfid.
    rewrite (Hunique found Hfin Hfid). cbn [fst snd].
    split; [reflexivity |]. split; [repeat split |].
    split; [| reflexivity].
    intros mapId. unfold DB.getReferencePoints. cbn [DB.points].
    clear Hsorted Hin Hfin.
    induction (DB.points db) as [| p l IH]; [reflexivity |].
    cbn [map filter].
    assert (Hl : forall q, In q l -> DB.id q = DB.id point -> q = point)
      by (intros q Hq; apply Hunique; right; exact Hq).
    destruct (Z.eqb_spec (DB.id p) (DB.id point)) as [Hp | Hp].
    + rewrite (Hunique p (or_introl eq_refl) Hp). cbn [DB.merge DB.mapId].
      destruct (DB.mapId point =? mapId); cbn [map];
        rewrite ?Z.eqb_refl, (IH Hl); reflexivity.
    + destruct (DB.mapId p =? mapId); cbn [map].
      * destruct (Z.eqb_spec (DB.id p) (DB.id point)); [contradiction |].
        rewrite (IH Hl). reflexivity.
      * exact (IH Hl).
  - exfalso. apply (find_none _ _ Hfind) in Hin. rewrite Z.eqb_refl in Hin. discriminate.
Qed.

(** [addMap] hands out a fresh key under which [getMap] finds the new
    map, lists the new map last, and changes no other map. *)
Theorem added_map_is_found (mapData : DB.MapData Blob) (now : Z) db :
  DB.well_formed db ->
  let key := fst (DB.addMap mapData now db) in
  let db' := snd (DB.addMap mapData now db) in
  let map := DB.mkMap key (DB.data_name mapData) (DB.data_imageBlob mapData)
                      (DB.data_thumbnail mapData) now in
  DB.getMap key db = None /\
  DB.getMap key db' = Some map /\
  DB.getAllMaps db' = DB.getAllMaps db ++ [map] /\
  forall other, other <> key -> DB.getMap other db' = DB.getMap other db.
Proof.
  intros [[_ Hrange] _]. cbv zeta.
  unfold DB.addMap, DB.getMap, DB.getAllMaps. cbn [fst snd DB.maps].
  assert (Hnone : find (fun m => DB.map_id m =? DB.maps_key db + 1) (DB.maps db) = None).
  { destruct (find _ (DB.maps db)) as [m |] eqn:Hfind; [| reflexivity].
    apply find_some in Hfind. destruct Hfind as [Hin Hid]. apply Z.eqb_eq in Hid.
    rewrite Forall_forall in Hrange.
    specialize (Hrange (DB.map_id m) (in_map (@DB.map_id Blob) _ m Hin)). lia. }
  split; [exact Hnone |]. split; [| split; [reflexivity |]].
  - rewrite find_app_either, Hnone. cbn. rewrite Z.eqb_refl. reflexivity.
  - intros other Hother. rewrite find_app_either. clear Hnone.
    destruct (find (fun m => DB.map_id m =? other) (DB.maps db)); [reflexivity |].
    cbn. destruct (Z.eqb_spec (DB.maps_key db + 1) other); [congruence | reflexivity].
Qed.
End DatabaseCalls.

(** * The other copy of the module *)

Section SecondCopy.
Local Open Scope R_scope.

Ltac matrix_ops :=
  unfold Matrix.applyToPoint, Matrix.compose, Matrix.inverse, Matrix.frame;
  cbn [fst snd Matrix.a Matrix.b Matrix.c Matrix.d Matrix.e Matrix.f];
  real_ops.

(** The triangle-based fitter interpolates: when [fromTriangles] behaves
    as documented and the pixels of the first three points are not
    collinear, the returned model sends each of these three pixels to its
    geographic partner, however many points follow. *)
Theorem triangle_fit_interpolates
  (fromTriangles : list (R * R) -> list (R * R) -> option (Matrix.t R))
  (p1 p2 p3 : Ref.t R) (rest : list (Ref.t R)) (M : Affine.t R) :
  fromTriangles_contract fromTriangles ->
  proper_triangle (Ref.imageX p1, Ref.imageY p1) (Ref.imageX p2, Ref.imageY p2)
                  (Ref.imageX p3, Ref.imageY p3) ->
  TriangleFit.computeAffineTransform fromTriangles (p1 :: p2 :: p3 :: rest) = Ok M ->
  Forall (fun p => imageToGeo (Ref.imageX p) (Ref.imageY p) (AffineT M) "affine"
                   = Ok (Geo.mk (Ref.lon p) (Ref.lat p)))
         [p1; p2; p3].
Proof.
  intros Hspec Hproper Hfit.
  unfold TriangleFit.computeAffineTransform in Hfit.
  cbn [List.length Nat.ltb Nat.leb firstn map] in Hfit.
  destruct (fromTriangles _ _) as [[ma mb mc md me mf] |] eqn:Hm; [| discriminate].
  injection Hfit as <-.
  apply Hspec in Hm; [| exact Hproper].
  destruct Hm as (H1 & H2 & H3). revert H1 H2 H3. matrix_ops.
  intros [= H1x H1y] [= H2x H2y] [= H3x H3y].
  repeat constructor; cbn; real_ops; f_equal; f_equal; assumption.
Qed.

(** The closed form of the inverse meets the documented behaviour. *)
Lemma closed_form_inverse_contract :
  inverse_contract (fun m => Some (Matrix.inverse m)).
Proof.
  intros [a b c d e f] m' [x y] Hdet [= <-].
  cbn [Matrix.a Matrix.b Matrix.c Matrix.d] in Hdet.
  assert (Hneg : - (a * d - b * c) <> 0) by (intros H; apply Hdet; lra).
  matrix_ops. f_equal; field; auto.
Qed.

(** In the other copy [geoToImage] undoes [imageToGeo] for every affine
    model of nonzero determinant for which [inverse] returns a matrix:
    this copy has no threshold on the determinant. *)
Theorem copy_round_trip
  (inverse : Matrix.t R -> option (Matrix.t R)) (t : Affine.t R)
  (inverseMatrix : Matrix.t R) (x y : R) :
  inverse_contract inverse ->
  Affine.a t * Affine.e t - Affine.b t * Affine.d t <> 0 ->
  inverse (Matrix.mk (Affine.a t) (Affine.d t) (Affine.b t) (Affine.e t)
                     (Affine.c t) (Affine.f t)) = Some inverseMatrix ->
  exists g,
    imageToGeo x y (AffineT t) "affine" = Ok g /\
    TriangleCopy.geoToImage inverse (Geo.lon g) (Geo.lat g) (AffineT t) "affine"
    = Ok (Img.mk x y).
Proof.
  destruct t as [a b c d e f].
  cbn [Affine.a Affine.b Affine.c Affine.d Affine.e Affine.f].
  intros Hspec Hdet Hinv.
  eexists. split; [reflexivity |].
  cbn [TriangleCopy.geoToImage String.eqb Ascii.eqb Bool.eqb Geo.lon Geo.lat].
  cbn. rewrite Hinv.
  assert (Hdet' : Matrix.a (Matrix.mk a d b e c f) * Matrix.d (Matrix.mk a d b e c f)
                  - Matrix.b (Matrix.mk a d b e c f) * Matrix.c (Matrix.mk a d b e c f)
                  <> 0)
    by (cbn; intros H; apply Hdet; lra).
  pose proof (Hspec _ _ (x, y) Hdet' Hinv) as Hback.
  unfold Matrix.applyToPoint in Hback |- *.
  cbn [fst snd Matrix.a Matrix.b Matrix.c Matrix.d Matrix.e Matrix.f] in Hback |- *.
  real_ops. real_ops_in Hback.
  injection Hback as Hx Hy. rewrite Hx, Hy. reflexivity.
Qed.
End SecondCopy.

(** * The map list *)

Section Thumbnails.
Local Open Scope R_scope.

(** The thumbnail of an image of positive size is at most 200 pixels
    wide and high and keeps the proportions of the image; an image that
    already fits keeps its size, and a larger one is brought to 200
    pixels on its longer side. *)
Theorem thumbnail_fits (w h : R) :
  0 < w -> 0 < h ->
  let size := MapList.thumbnailSize w h in
  0 < fst size <= 200 /\ 0 < snd size <= 200 /\
  fst size * h = snd size * w /\
  (w <= 200 -> h <= 200 -> size = (w, h)) /\
  (200 < w \/ 200 < h -> Rmax (fst size) (snd size) = 200).
Proof.
  intros Hw Hh. cbv zeta. unfold MapList.thumbnailSize. real_ops. unfold Rltb.
  destruct (Rlt_dec h w) as [Hhw | Hhw].
  - destruct (Rlt_dec 200 w) as [Hbig | Hsmall]; cbn [fst snd].
    + assert (Hq : 0 < 200 / w) by (apply Rdiv_lt_0_compat; lra).
      assert (Hqw : 200 / w * w = 200) by (field; lra).
      split; [lra |]. split; [split; nra |]. split; [field; lra |].
      split; [intros; lra |]. intros _. apply Rmax_left. nra.
    + split; [lra |]. split; [lra |]. split; [ring |].
      split; [reflexivity |]. intros [H | H]; lra.
  - destruct (Rlt_dec 200 h) as [Hbig | Hsmall]; cbn [fst snd].
    + assert (Hq : 0 < 200 / h) by (apply Rdiv_lt_0_compat; lra).
      assert (Hqh : 200 / h * h = 200) by (field; lra).
      split; [split; nra |]. split; [lra |]. split; [field; lra |].
      split; [intros; lra |]. intros _. apply Rmax_right. nra.
    + split; [lra |]. split; [lra |]. split; [ring |].
      split; [reflexivity |]. intros [H | H]; lra.
Qed.
End Thumbnails.

(** * Coordinates entered by hand *)

Section ManualCoordinates.

Lemma SFcompare_antisym (a b : spec_float) :
  SFcompare b a = option_map CompOpp (SFcompare a b).
Proof.
  destruct a as [sa | sa | | sa ma ea], b as [sb | sb | | sb mb eb]; cbn;
    try reflexivity;
    try (destruct sa; reflexivity); try (destruct sb; reflexivity);
    try (destruct sa, sb; reflexivity).
  f_equal. rewrite (Z.compare_antisym ea eb).
  destruct sa, sb; try reflexivity.
  - destruct (Z.compare ea eb); cbn; try reflexivity.
    f_equal. symmetry. exact (Pos.compare_cont_antisym ma mb Eq).
  - destruct (Z.compare ea eb); cbn; try reflexivity.
    symmetry. exact (Pos.compare_cont_antisym ma mb Eq).
Qed.

Lemma SFcompare_defined (a b : spec_float) :
  a <> S754_nan -> b <> S754_nan -> exists c, SFcompare a b = Some c.
Proof.
  intros Ha Hb.
  destruct a as [sa | sa | | sa ma ea], b as [sb | sb | | sb mb eb];
    try contradiction; cbn; eexists; reflexivity.
Qed.

Lemma not_nan_spec (x : float) :
  PrimFloat.is_nan x = false -> Prim2SF x <> S754_nan.
Proof.
  intros H Hnan. unfold PrimFloat.is_nan in H.
  rewrite FloatAxioms.eqb_spec, Hnan in H. discriminate.
Qed.

(** For doubles other than NaN, [x < y] fails only when [y <= x] holds. *)
Lemma not_ltb_leb (x y : float) :
  PrimFloat.is_nan x = false -> PrimFloat.is_nan y = false ->
  PrimFloat.ltb x y = false -> PrimFloat.leb y x = true.
Proof.
  intros Hx Hy. apply not_nan_spec in Hx, Hy.
  rewrite ltb_spec, leb_spec. unfold SFltb, SFleb.
  rewrite (SFcompare_antisym (Prim2SF x) (Prim2SF y)).
  destruct (SFcompare_defined Hx Hy) as [c ->].
  destruct c; cbn; congruence.
Qed.

(** Coordinates typed by hand are selected only when both are numbers,
    the latitude lies between -90 and 90 and the longitude between -180
    and 180; in every other case an alert is shown and the selection
    stays as it was. *)
Theorem manual_coordinates_checked
  (lat lon : float) (selected : option float * option float) :
  match Viewer.useManualCoordinates lat lon selected with
  | (None, selected') =>
      selected' = (Some lat, Some lon) /\
      PrimFloat.is_nan lat = false /\ PrimFloat.is_nan lon = false /\
      PrimFloat.leb (-90) lat = true /\ PrimFloat.leb lat 90 = true /\
      PrimFloat.leb (-180) lon = true /\ PrimFloat.leb lon 180 = true
  | (Some _, selected') => selected' = selected
  end.
Proof.
  unfold Viewer.useManualCoordinates.
  cbv [num_isNaN num_ltb lit Binary64 Binary64Order].
  destruct (PrimFloat.is_nan lat) eqn:Hlat; [reflexivity |].
  destruct (PrimFloat.is_nan lon) eqn:Hlon; [reflexivity |].
  cbn [orb].
  destruct (PrimFloat.ltb lat (float_of_Z (-90))) eqn:H1; [reflexivity |].
  destruct (PrimFloat.ltb (float_of_Z 90) lat) eqn:H2; [reflexivity |].
  cbn [orb].
  destruct (PrimFloat.ltb lon (float_of_Z (-180))) eqn:H3; [reflexivity |].
  destruct (PrimFloat.ltb (float_of_Z 180) lon) eqn:H4; [reflexivity |].
  cbn [orb].
  repeat split; try reflexivity.
  - exact (not_ltb_leb Hlat (eq_refl : PrimFloat.is_nan (float_of_Z (-90)) = false) H1).
  - exact (not_ltb_leb (eq_refl : PrimFloat.is_nan (float_of_Z 90) = false) Hlat H2).
  - exact (not_ltb_leb Hlon (eq_refl : PrimFloat.is_nan (float_of_Z (-180)) = false) H3).
  - exact (not_ltb_leb (eq_refl : PrimFloat.is_nan (float_of_Z 180) = false) Hlon H4).
Qed.
End ManualCoordinates.

(** * The statements above at concrete inputs *)

Section FurtherInstances.
Local Open Scope R_scope.

Ltac view_ops :=
  cbv [num_leb num_falsy Math_min Math_max Math_hypot RealOrder RealHypot
       Viewer.lit_0_9 Viewer.lit_1_1 Viewer.lit_0_1]; real_ops.

(** [similarity_interpolates] on the two points of scenario A. *)
Lemma similarity_interpolates_witness :
  exists M,
    computeSimilarityTransform [Ref.mk 0 0 0 0; Ref.mk 100 0 0 1] = Ok M /\
    imageToGeo 0 0 (SimilarityT M) "similarity" = Ok (Geo.mk 0 0) /\
    imageToGeo 100 0 (SimilarityT M) "similarity" = Ok (Geo.mk 0 1).
Proof.
  apply (@similarity_interpolates (Ref.mk 0 0 0 0) (Ref.mk 100 0 0 1)).
  left. cbn. lra.
Defined.


(** [unknown_type_rejected] on the type ["projective"]. *)
Lemma unknown_type_rejected_witness :
  imageToGeo (N := R) 5 5 (AffineT scenarioC) "projective" = Err UnknownTransformType /\
  geoToImage (N := R) 5 5 (AffineT scenarioC) "projective" = Err UnknownTransformType.
Proof.
  apply unknown_type_rejected; intros H; discriminate H.
Defined.

(** [fit_is_evaluable] on the fit of scenario B. *)
Lemma fit_is_evaluable_witness :
  (exists g,
      imageToGeo 5 5 (AffineT (Affine.mk 1 31 (- (1 / 3)) 0 62 (- (1 / 3)))) "affine"
      = Ok g) /\
  ((exists p,
       geoToImage 15 25 (AffineT (Affine.mk 1 31 (- (1 / 3)) 0 62 (- (1 / 3)))) "affine"
       = Ok p) \/
   geoToImage 15 25 (AffineT (Affine.mk 1 31 (- (1 / 3)) 0 62 (- (1 / 3)))) "affine"
   = Err SingularTransform).
Proof.
  apply (@fit_is_evaluable R _ _ (Some scenarioB)
           (mkFit (AffineT (Affine.mk 1 31 (- (1 / 3)) 0 62 (- (1 / 3)))) "affine")).
  unfold calculateTransform. rewrite scenarioB_model. reflexivity.
Defined.

(** [selection_errors] on the collinear triple. *)
Lemma selection_errors_witness :
  CollinearPoints = CollinearPoints /\
  exists pts, Some (collinear3 (N := R)) = Some pts /\ (3 <= List.length pts)%nat.
Proof.
  apply (@selection_errors R _ _ (Some collinear3)).
  unfold calculateTransform. unfold_fit. guard_value 0. reflexivity.
Defined.

(** [affine_fit_order_independent] on scenario B with its first two
    points exchanged. *)
Lemma affine_fit_order_independent_witness :
  computeAffineTransform [point (N := R) 1 0 11 20; point 0 0 10 20; point 0 1 10 21]
  = computeAffineTransform [point 0 0 10 20; point 1 0 11 20; point 0 1 10 21].
Proof.
  apply affine_fit_order_independent. apply perm_swap.
Defined.

(** [affine_fit_centroid] on scenario B: the centroid [(1/3, 1/3)] goes
    to [(31/3, 61/3)]. *)
Lemma affine_fit_centroid_witness :
  imageToGeo (sum_x (affine_sums scenarioB) / point_count scenarioB)
             (sum_y (affine_sums scenarioB) / point_count scenarioB)
             (AffineT (Affine.mk 1 31 (- (1 / 3)) 0 62 (- (1 / 3)))) "affine"
  = Ok (Geo.mk (sum_lon (affine_sums scenarioB) / point_count scenarioB)
               (sum_lat (affine_sums scenarioB) / point_count scenarioB)).
Proof.
  apply affine_fit_centroid. exact scenarioB_model.
Defined.

(** [exact_data_recovers_a_d] on scenario B, whose points lie on
    [lon = x + 10], [lat = y + 20]. *)
Lemma exact_data_recovers_a_d_witness :
  Affine.a (Affine.mk 1 31 (- (1 / 3)) 0 62 (- (1 / 3))) = 1 /\
  Affine.d (Affine.mk 1 31 (- (1 / 3)) 0 62 (- (1 / 3))) = 0.
Proof.
  apply (@exact_data_recovers_a_d 1 0 10 0 1 20 scenarioB).
  - repeat constructor; cbn; real_ops; lra.
  - exact scenarioB_model.
Defined.

(** [round_trip_geo] on the offset model at the geographic point [(15,25)]. *)
Lemma round_trip_geo_witness :
  exists p,
    geoToImage 15 25 (AffineT (Affine.mk 1 0 10 0 1 20)) "affine" = Ok p /\
    imageToGeo (Img.imageX p) (Img.imageY p) (AffineT (Affine.mk 1 0 10 0 1 20)) "affine"
    = Ok (Geo.mk 15 25).
Proof.
  apply round_trip_geo. split; [reflexivity |].
  cbn [Affine.a Affine.b Affine.d Affine.e].
  replace (1 * 1 - 0 * 0) with 1 by lra. rewrite Rabs_R1. lra.
Defined.

(** [triangle_fit_interpolates] on scenario B, with the closed form. *)
Lemma triangle_fit_interpolates_witness :
  Forall (fun p => imageToGeo (Ref.imageX p) (Ref.imageY p)
                     (AffineT (Affine.mk 1 0 10 0 1 20)) "affine"
                   = Ok (Geo.mk (Ref.lon p) (Ref.lat p)))
         [point (N := R) 0 0 10 20; point 1 0 11 20; point 0 1 10 21].
Proof.
  apply (@triangle_fit_interpolates Matrix.fromTriangles _ _ _ [] _
           closed_form_contract).
  - unfold proper_triangle, point. cbn. real_ops. lra.
  - exact triangle_fit_scenarioB.
Defined.

(** [copy_round_trip] on the offset model at pixel [(5,5)], with the
    closed form of the inverse. *)
Lemma copy_round_trip_witness :
  exists g,
    imageToGeo 5 5 (AffineT (Affine.mk 1 0 10 0 1 20)) "affine" = Ok g /\
    TriangleCopy.geoToImage (fun m => Some (Matrix.inverse m))
      (Geo.lon g) (Geo.lat g) (AffineT (Affine.mk 1 0 10 0 1 20)) "affine"
    = Ok (Img.mk 5 5).
Proof.
  apply (@copy_round_trip (fun m => Some (Matrix.inverse m))
           (Affine.mk 1 0 10 0 1 20)
           (Matrix.inverse (Matrix.mk 1 0 0 1 10 20))
           5 5 closed_form_inverse_contract).
  - cbn. lra.
  - reflexivity.
Defined.

(** [thumbnail_fits] on an image of 400 by 300 pixels. *)
Lemma thumbnail_fits_witness :
  let size := MapList.thumbnailSize 400 300 in
  0 < fst size <= 200 /\ 0 < snd size <= 200 /\
  fst size * 300 = snd size * 400 /\
  (400 <= 200 -> 300 <= 200 -> size = (400, 300)) /\
  (200 < 400 \/ 200 < 300 -> Rmax (fst size) (snd size) = 200).
Proof.
  apply (@thumbnail_fits 400 300); lra.
Defined.
End FurtherInstances.

Section ViewerInstances.
Local Open Scope R_scope.

(** [screen_round_trip] on the pixel [(100, 50)]. *)
Lemma screen_round_trip_witness :
  Viewer.screenToImage example_view (fst (Viewer.screenPoint example_view (Ref.mk 100 50 0 0)))
                            (snd (Viewer.screenPoint example_view (Ref.mk 100 50 0 0)))
  = Some (100, 50).
Proof.
  apply (@screen_round_trip example_view (Ref.mk 100 50 0 0)); cbn; lra.
Defined.

(** [fit_shows_whole_image] on the corner pixel [(400, 300)]. *)
Lemma fit_shows_whole_image_witness :
  let shown := Viewer.screenPoint (Viewer.fitImageToCanvas example_view) (Ref.mk 400 300 0 0) in
  800 / 20 <= fst shown <= 19 * 800 / 20 /\
  600 / 20 <= snd shown <= 19 * 600 / 20.
Proof.
  apply (@fit_shows_whole_image example_view (Ref.mk 400 300 0 0)); cbn; lra.
Defined.

(** [pinch_keeps_center] on two fingers at [(0,0)] and [(20,10)], for a
    view that started unscaled at the origin. *)
Lemma pinch_keeps_center_witness :
  Viewer.screenPoint
    (Viewer.pinch (0, 0) (20, 10) 10 (Viewer.mkTransform 1 0 0 0) example_view)
    (Ref.mk 210 155 0 0)
  = ((0 + 20) / 2, (0 + 10) / 2).
Proof.
  apply (@pinch_keeps_center example_view (0, 0) (20, 10) 10 (Viewer.mkTransform 1 0 0 0)
           (Ref.mk 210 155 0 0)).
  - cbn. lra.
  - reflexivity.
  - unfold Viewer.screenPoint. cbn. real_ops. rewrite cos_0, sin_0.
    f_equal; lra.
Defined.
End ViewerInstances.

Section Binary64Instances.

(** [nan_determinant_not_caught] on three points of which one has an
    infinite pixel coordinate. *)
Lemma nan_determinant_not_caught_witness :
  exists M,
    computeAffineTransform
      [Ref.mk infinity 0%float 0%float 0%float;
       Ref.mk 0%float 0%float 0%float 0%float;
       Ref.mk 1%float 1%float 1%float 1%float] = Ok M /\
    PrimFloat.is_nan (Affine.a M) = true /\ PrimFloat.is_nan (Affine.b M) = true /\
    PrimFloat.is_nan (Affine.c M) = true /\ PrimFloat.is_nan (Affine.d M) = true /\
    PrimFloat.is_nan (Affine.e M) = true /\ PrimFloat.is_nan (Affine.f M) = true.
Proof.
  apply nan_determinant_not_caught; [apply le_n | vm_compute; reflexivity].
Defined.
End Binary64Instances.

Section DatabaseInstances.
Local Open Scope Z_scope.

Lemma example_db_well_formed : DB.well_formed example_db.
Proof.
  unfold DB.well_formed, DB.keys_ok, example_db, example_point. cbn.
  repeat split; repeat constructor; lia.
Defined.

(** [update_missing_point] on the key [7], which [example_db] does not hold. *)
Lemma update_missing_point_witness :
  DB.updateReferencePoint 7 (DB.mkUpdates None None (Some 12) (Some 47)) example_db
  = (inl DB.PointNotFound, example_db) /\
  DB.rejection_message DB.PointNotFound = "Point not found"%string.
Proof.
  apply update_missing_point.
  intros p [<- | []]. cbn. discriminate.
Defined.

(** [added_point_is_listed_last] on a second point for the map of [example_db]. *)
Lemma added_point_is_listed_last_witness :
  let pointData := DB.mkPointData 1 300 200 12 47 in
  let key := fst (DB.addReferencePoint pointData 1700000000500 example_db) in
  let db' := snd (DB.addReferencePoint pointData 1700000000500 example_db) in
  (forall p, In p (DB.points example_db) -> DB.id p < key) /\
  DB.getReferencePoints 1 db'
  = DB.getReferencePoints 1 example_db ++ [DB.mkPoint key 1 300 200 12 47 1700000000500] /\
  forall other, other <> 1 ->
    DB.getReferencePoints other db' = DB.getReferencePoints other example_db.
Proof.
  exact (@added_point_is_listed_last unit Z (DB.mkPointData 1 300 200 12 47)
           1700000000500 example_db example_db_well_formed).
Defined.

(** [update_replaces_one_point] on the example_point point of [example_db]. *)
Lemma update_replaces_one_point_witness :
  let updates := DB.mkUpdates None None (Some 12) (Some 47) in
  let updated := DB.merge example_point updates in
  let db' := snd (DB.updateReferencePoint 1 updates example_db) in
  fst (DB.updateReferencePoint 1 updates example_db) = inr updated /\
  (DB.id updated = 1 /\ DB.mapId updated = 1 /\
   DB.timestamp updated = 1700000000000) /\
  (forall mapId,
      DB.getReferencePoints mapId db'
      = map (fun p => if DB.id p =? 1 then updated else p)
            (DB.getReferencePoints mapId example_db)) /\
  DB.getAllMaps db' = DB.getAllMaps example_db.
Proof.
  exact (@update_replaces_one_point unit Z example_point
           (DB.mkUpdates None None (Some 12) (Some 47)) example_db example_db_well_formed
           (or_introl eq_refl)).
Defined.

(** [added_map_is_found] on a second map for [example_db]. *)
Lemma added_map_is_found_witness :
  let mapData := DB.mkMapData "city.png" tt "thumb2" in
  let key := fst (DB.addMap mapData 1700000000900 example_db) in
  let db' := snd (DB.addMap mapData 1700000000900 example_db) in
  let map := DB.mkMap key "city.png" tt "thumb2" 1700000000900 in
  DB.getMap key example_db = None /\
  DB.getMap key db' = Some map /\
  DB.getAllMaps db' = DB.getAllMaps example_db ++ [map] /\
  forall other, other <> key -> DB.getMap other db' = DB.getMap other example_db.
Proof.
  exact (@added_map_is_found unit Z (DB.mkMapData "city.png" tt "thumb2")
           1700000000900 example_db example_db_well_formed).
Defined.
End DatabaseInstances.

(** * Further runs in binary64 *)

Section FurtherBinary64Runs.
Local Open Scope float_scope.

(** A 400 by 300 image gets a thumbnail of 200 by 150. *)
Example binary64_thumbnail :
  MapList.thumbnailSize (N := float) 400 300 = (200, 150).
Proof. vm_compute. reflexivity. Qed.

(** One notch of the wheel away from the user shrinks the view by a tenth. *)
Example binary64_wheel :
  Viewer.scale
    (Viewer.transform
       (Viewer.handleWheel 100
          (Viewer.mkState (Viewer.mkTransform 1 0 0 0) 400 300 800 600 true [])))
  = 0x1.ccccccccccccdp-1.   (* the double that [0.9] denotes *)
Proof. vm_compute. reflexivity. Qed.

(** A field that does not parse leaves the selection alone. *)
Example binary64_manual_nan :
  Viewer.useManualCoordinates nan 11 (Some 46, Some 11)
  = (Some Viewer.InvalidNumbers, (Some 46, Some 11)).
Proof. vm_compute. reflexivity. Qed.

(** The latitude 91 is refused, the latitude 90 is accepted. *)
Example binary64_manual_range :
  fst (Viewer.useManualCoordinates 91 11 (None, None)) = Some Viewer.LatitudeRange /\
  Viewer.useManualCoordinates 90 180 (None, None) = (None, (Some 90, Some 180)).
Proof. split; vm_compute; reflexivity. Qed.

(** The round trip from a geographic point, on [nearSingular]: the point
    [(3,7)] goes to a pixel and comes back as [(4,8)]. *)
Example binary64_round_trip_geo_lost (trig : Trig float) :
  geoToImage 3 7 (AffineT nearSingular) "affine"
  = Ok (Img.mk (-0x1.ffffffffffffep+43) 0x1p+44) /\
  imageToGeo (-0x1.ffffffffffffep+43) 0x1p+44 (AffineT nearSingular) "affine"
  = Ok (Geo.mk 4 8).
Proof. split; vm_compute; reflexivity. Qed.
End FurtherBinary64Runs.
